(** * A shallow embedding of [balance.py]

    The ledger of [balance.py] keeps the advances given to a customer, the
    payments received and a cash buffer; a payment is swept first over the
    accrued interest and then over the capital of the open advances, oldest
    first.

    Modelling choices.
    - Money and rates are Python [int]s and [fractions.Fraction]s, whose
      [+], [-], [*] and comparisons are exact.  Both are rationals ([Q]):
      an [int] n is [n # 1], a [Fraction] is a fraction written with a
      denominator above 1 (1/1000 is [1 # 1000], Fraction(3) is [6 # 2]).
      The operations of [Q] multiply denominators and never reduce, so a
      sum, difference or product has the denominator 1 exactly when both
      operands have it, as Python's result is an [int] exactly when both
      operands are.  [==] on numbers is [Qeq].
    - [x / y] is Python's true division: a [Fraction], exact, when an
      operand is a [Fraction]; the [float] nearest to the quotient when
      both are [int]s.  That float only ever goes to [floor].  [float]
      arguments, whose every operation rounds, are not modelled.
    - A [date] is its proleptic Gregorian ordinal ([date.toordinal()]), an
      integer between 1 (0001-01-01) and 3652059 (9999-12-31).  The strings
      accepted by [date.fromisoformat] are those of the form YYYY-MM-DD
      (Python 3.7 to 3.10).
    - Python objects are mutable and shared.  An [Advance] object is
      identified by its position in [Balance.advances], a list the program
      only ever appends to; the private list [__unpaid_advances] holds
      references, that is positions, so a mutation made through one list is
      seen through the other.
    - A method that mutates [self] returns the new state next to its
      result; an exception leaves the mutations made before it in place. *)

From Stdlib Require Import ZArith QArith Qround Qminmax List Sorted Bool Lia Lqa Ascii String.
Import ListNotations.


(** ** Exceptions and results *)

Inductive exn : Type :=
| ValueError          (* date.fromisoformat on a malformed string; list.remove of an absent element *)
| ZeroDivisionError   (* amount / interest_by_day with a zero divisor *)
| OverflowError       (* date or timedelta out of range; int / int too large for a float *)
| IndexError          (* list index out of range *)
| DanglingReference.  (* not a Python exception: a reference to no object; excluded by [wf] *)

Inductive result (A : Type) : Type :=
| Ok (a : A)
| Err (e : exn).
Arguments Ok {A} a.
Arguments Err {A} e.

Definition bind {A B : Type} (r : result A) (k : A -> result B) : result B :=
  match r with
  | Ok a => k a
  | Err e => Err e
  end.

Notation "x <- r ;; k" := (bind r (fun x => k))
  (at level 61, r at next level, right associativity).

(* x < y on numbers *)
Definition Qlt_bool (x y : Q) : bool := negb (Qle_bool y x).

(** ** Numbers *)

(* isinstance(x, int) *)
Definition is_int (x : Q) : bool := Pos.eqb (Qden x) 1.

(* the integer nearest to n / d, the even one of two equally near; 0 < d *)
Definition round_half_even (n d : Z) : Z :=
  let q := (n / d)%Z in
  match (2 * (n mod d) ?= d)%Z with
  | Lt => q
  | Gt => (q + 1)%Z
  | Eq => if Z.even q then q else (q + 1)%Z
  end.

(* the exponent t with 2^t <= a / d < 2^(t+1); 0 < a, 0 < d *)
Definition log2_floor (a d : Z) : Z :=
  let l := (Z.log2 a - Z.log2 d)%Z in
  if (0 <=? l)%Z then (if (d * 2 ^ l <=? a)%Z then l else (l - 1)%Z)
  else (if (d <=? a * 2 ^ (- l))%Z then l else (l - 1)%Z).

(* the float (IEEE 754 binary64: 53 bits, exponents down to 2^-1074) nearest
   to q, ties to even; OverflowError from 2^1024 on *)
Definition float_of_Q (q : Q) : result Q :=
  let n := Qnum q in
  let d := Zpos (Qden q) in
  if (n =? 0)%Z then Ok 0
  else
    let a := Z.abs n in
    let e := Z.max (log2_floor a d - 52) (-1074) in
    if (e <? 0)%Z then
      let m := round_half_even (a * 2 ^ (- e)) d in
      Ok (inject_Z (Z.sgn n * m) / inject_Z (2 ^ (- e)))
    else
      let m := round_half_even a (d * 2 ^ e) in
      if (2 ^ 1024 <=? m * 2 ^ e)%Z then Err OverflowError
      else Ok (inject_Z (Z.sgn n * m * 2 ^ e)).

(* x / y *)
Definition true_div (x y : Q) : result Q :=
  if Qeq_bool y 0 then Err ZeroDivisionError
  else if is_int x && is_int y then float_of_Q (x / y)
  else Ok (x / y).

(** ** The part of [datetime] the program uses *)

Module Calendar.
Local Open Scope Z_scope.

Definition date := Z.

Definition MINYEAR := 1.
Definition MAXYEAR := 9999.
Definition MINORD := 1.
Definition MAXORD := 3652059.

Definition in_range (n : Z) : bool := (MINORD <=? n) && (n <=? MAXORD).

Definition is_leap (year : Z) : bool :=
  (year mod 4 =? 0) && (negb (year mod 100 =? 0) || (year mod 400 =? 0)).

Definition days_in_month (year month : Z) : Z :=
  match month with
  | 2 => if is_leap year then 29 else 28
  | 4 | 6 | 9 | 11 => 30
  | _ => 31
  end.

(* _DAYS_BEFORE_MONTH, from month 1 on *)
Definition DAYS_BEFORE_MONTH (month : Z) : Z :=
  match month with
  | 1 => 0 | 2 => 31 | 3 => 59 | 4 => 90 | 5 => 120 | 6 => 151
  | 7 => 181 | 8 => 212 | 9 => 243 | 10 => 273 | 11 => 304 | _ => 334
  end.

Definition days_before_month (year month : Z) : Z :=
  DAYS_BEFORE_MONTH month + (if (2 <? month) && is_leap year then 1 else 0).

Definition days_before_year (year : Z) : Z :=
  let y := year - 1 in
  y * 365 + y / 4 - y / 100 + y / 400.

Definition ymd2ord (year month day : Z) : Z :=
  days_before_year year + days_before_month year month + day.

Definition DI400Y := 146097.
Definition DI100Y := 36524.
Definition DI4Y := 1461.

(* the month and the day of the [n]-th day (from 0) of a year *)
Definition month_day (leapyear : bool) (n : Z) : Z * Z :=
  let month := Z.shiftr (n + 50) 5 in
  let preceding := DAYS_BEFORE_MONTH month + (if (2 <? month) && leapyear then 1 else 0) in
  if n <? preceding then
    let month' := month - 1 in
    let dim := match month' with
               | 2 => if leapyear then 29 else 28
               | 4 | 6 | 9 | 11 => 30
               | _ => 31
               end in
    (month', n - (preceding - dim) + 1)
  else (month, n - preceding + 1).

Definition ord2ymd (ordinal : Z) : Z * Z * Z :=
  let n := ordinal - 1 in
  let n400 := n / DI400Y in
  let n := n mod DI400Y in
  let year := n400 * 400 + 1 in
  let n100 := n / DI100Y in
  let n := n mod DI100Y in
  let n4 := n / DI4Y in
  let n := n mod DI4Y in
  let n1 := n / 365 in
  let n := n mod 365 in
  let year := year + n100 * 100 + n4 * 4 + n1 in
  if (n1 =? 4) || (n100 =? 4) then (year - 1, 12, 31)
  else
    let leapyear := (n1 =? 3) && (negb (n4 =? 24) || (n100 =? 3)) in
    let '(month, day) := month_day leapyear n in
    (year, month, day).

(* what [month_day] has to satisfy, as a test *)
Definition days_in_leap (leapyear : bool) (month : Z) : Z :=
  match month with
  | 2 => if leapyear then 29 else 28
  | 4 | 6 | 9 | 11 => 30
  | _ => 31
  end.

Definition month_day_ok (leapyear : bool) (n : Z) : bool :=
  let '(month, day) := month_day leapyear n in
  (1 <=? month) && (month <=? 12) && (1 <=? day) && (day <=? days_in_leap leapyear month)
  && (DAYS_BEFORE_MONTH month + (if (2 <? month) && leapyear then 1 else 0) + day =? n + 1).

(** *** Decimal digits *)

Definition digit_of_ascii (c : ascii) : option Z :=
  let n := Z.of_nat (nat_of_ascii c) in
  if (48 <=? n) && (n <=? 57) then Some (n - 48) else None.

Definition ascii_of_digit (d : Z) : ascii :=
  ascii_of_nat (Z.to_nat (48 + d)).

Definition is_dash (c : ascii) : bool := Ascii.eqb c "-"%char.

(** *** [date.fromisoformat] and [date.isoformat] *)

Definition fromisoformat (s : string) : option date :=
  match list_ascii_of_string s with
  | [y3; y2; y1; y0; s1; m1; m0; s2; d1; d0] =>
      match digit_of_ascii y3, digit_of_ascii y2, digit_of_ascii y1, digit_of_ascii y0,
            digit_of_ascii m1, digit_of_ascii m0, digit_of_ascii d1, digit_of_ascii d0 with
      | Some a, Some b, Some c, Some d, Some e, Some f, Some g, Some h =>
          let year := 1000 * a + 100 * b + 10 * c + d in
          let month := 10 * e + f in
          let day := 10 * g + h in
          if is_dash s1 && is_dash s2
             && (MINYEAR <=? year) && (year <=? MAXYEAR)
             && (1 <=? month) && (month <=? 12)
             && (1 <=? day) && (day <=? days_in_month year month)
          then Some (ymd2ord year month day)
          else None
      | _, _, _, _, _, _, _, _ => None
      end
  | _ => None
  end.

Definition isoformat (d : date) : string :=
  let '(year, month, day) := ord2ymd d in
  string_of_list_ascii
    [ascii_of_digit (year / 1000); ascii_of_digit (year / 100 mod 10);
     ascii_of_digit (year / 10 mod 10); ascii_of_digit (year mod 10);
     "-"%char;
     ascii_of_digit (month / 10); ascii_of_digit (month mod 10);
     "-"%char;
     ascii_of_digit (day / 10); ascii_of_digit (day mod 10)].

(** *** [timedelta(days=n)] and [date + timedelta] *)

Definition MAX_DELTA_DAYS := 999999999.

(* timedelta(days=n): the number of days, or OverflowError *)
Definition timedelta (days : Z) : result Z :=
  if (- MAX_DELTA_DAYS <=? days) && (days <=? MAX_DELTA_DAYS) then Ok days
  else Err OverflowError.

(* date.__add__ *)
Definition date_add (d : date) (delta : Z) : result date :=
  let o := d + delta in
  if in_range o then Ok o else Err OverflowError.

(* (d1 - d2).days *)
Definition date_sub_days (d1 d2 : date) : Z := d1 - d2.

End Calendar.

(** ** class Advance *)

Module Advance.
Import Calendar.

Record t : Type := make {
  creation_date : date;
  initial_amount : Q;
  remaining_amount : Q;
  daily_interest_rate : Q;
  last_interest_payment_date : date
}.

Definition set_remaining_amount (self : t) (x : Q) : t :=
  make (creation_date self) (initial_amount self) x
       (daily_interest_rate self) (last_interest_payment_date self).

Definition set_last_interest_payment_date (self : t) (d : date) : t :=
  make (creation_date self) (initial_amount self) (remaining_amount self)
       (daily_interest_rate self) d.

(* __init__ *)
Definition init (_creation_date : string) (amount daily_interest_rate : Q)
    (remaining_amount : option Q) : result t :=
  match fromisoformat _creation_date with
  | None => Err ValueError
  | Some creation_date =>
      Ok (make creation_date amount
               (match remaining_amount with Some r => r | None => amount end)
               daily_interest_rate creation_date)
  end.

Definition __days_from_last_interest_payment (self : t) (to_date : string) : result Z :=
  match fromisoformat to_date with
  | None => Err ValueError
  | Some _to_date =>
      if (_to_date <=? last_interest_payment_date self)%Z then Ok 0%Z
      else Ok (date_sub_days _to_date (last_interest_payment_date self))
  end.

Definition interest_by_day (self : t) : Q :=
  remaining_amount self * daily_interest_rate self.

Definition interest_payable_balance (self : t) (to_date : string) : result Q :=
  days <- __days_from_last_interest_payment self to_date ;;
  Ok (inject_Z days * interest_by_day self).

(* returns the advance after the call and the amount not used *)
Definition pay_capital (self : t) (amount : Q) : t * Q :=
  let self := set_remaining_amount self (remaining_amount self - amount) in
  if Qlt_bool (remaining_amount self) 0 then
    let rest := - remaining_amount self in
    (set_remaining_amount self 0, rest)
  else (self, 0).

(* returns the advance after the call and (rest, interest_paid) *)
Definition pay_interest (self : t) (amount : Q) (payment_date : string)
    : t * result (Q * Q) :=
  match interest_payable_balance self payment_date with
  | Err e => (self, Err e)
  | Ok interest =>
      if Qle_bool interest amount then
        match fromisoformat payment_date with
        | None => (self, Err ValueError)
        | Some d =>
            (set_last_interest_payment_date self d, Ok (amount - interest, interest))
        end
      else
        let interest_by_day := interest_by_day self in
        match true_div amount interest_by_day with
        | Err e => (self, Err e)
        | Ok quotient =>
            let interest_paid_in_days := Qfloor quotient in
            match (delta <- timedelta interest_paid_in_days ;;
                   date_add (last_interest_payment_date self) delta) with
            | Err e => (self, Err e)
            | Ok d =>
                let interest_amount := inject_Z interest_paid_in_days * interest_by_day in
                (set_last_interest_payment_date self d,
                 Ok (amount - interest_amount, interest_amount))
            end
        end
  end.

Definition is_close (self : t) : bool := Qeq_bool (remaining_amount self) 0.

(** The two dates of an advance are [date] objects. *)
Definition valid (self : t) : Prop :=
  in_range (creation_date self) = true /\
  in_range (last_interest_payment_date self) = true.

(** The whole days from [d1] to [d2], none when [d2] is not after [d1]; and
    the interest accrued at the date [d], in terms of dates. *)
Definition days_between (d1 d2 : date) : Z :=
  if (d2 <=? d1)%Z then 0%Z else date_sub_days d2 d1.

Definition interest_payable_at (self : t) (d : date) : Q :=
  inject_Z (days_between (last_interest_payment_date self) d) * interest_by_day self.

End Advance.

(** ** class Payment *)

Module Payment.

Record t : Type := make {
  creation_date : string;
  amount : Q
}.

End Payment.

(** ** Lists as Python uses them *)

(* l[i] = x, for i in range *)
Fixpoint list_set {A : Type} (l : list A) (i : nat) (x : A) : list A :=
  match l, i with
  | [], _ => []
  | _ :: l', O => x :: l'
  | y :: l', S i' => y :: list_set l' i' x
  end.

(* list.remove(x): the list without the first occurrence of x, None (ValueError)
   when there is none; references are compared by identity *)
Fixpoint list_remove (x : nat) (l : list nat) : option (list nat) :=
  match l with
  | [] => None
  | y :: l' =>
      if Nat.eqb y x then Some l'
      else match list_remove x l' with
           | Some l'' => Some (y :: l'')
           | None => None
           end
  end.

(* sum(l) *)
Definition sum (l : list Q) : Q := fold_left Qplus l 0.

(** ** class Balance *)

(* what the body of a [for] loop does next *)
Inductive control : Type :=
| Continue
| Break
| Raise (e : exn).

(* how a [for] loop over a generator ends *)
Inductive exit : Type :=
| Exhausted           (* the generator returned *)
| Broke               (* the body executed break; the generator is dropped where it is *)
| Raised (e : exn).

(* how the loop ends when its body stops it *)
Definition exit_of_control (c : control) : exit :=
  match c with
  | Continue => Exhausted
  | Break => Broke
  | Raise e => Raised e
  end.

Definition result_of_exit (x : exit) : result unit :=
  match x with
  | Exhausted | Broke => Ok tt
  | Raised e => Err e
  end.

Module Balance.
Import Calendar.

Record t : Type := make {
  advances : list Advance.t;        (* the Advance objects, in creation order *)
  __unpaid_advances : list nat;     (* references into [advances] *)
  payments : list Payment.t;
  interest_paid : Q;
  daily_interest_rate : Q;
  balance : Q
}.

Definition set_advances (self : t) (x : list Advance.t) : t :=
  make x (__unpaid_advances self) (payments self) (interest_paid self)
       (daily_interest_rate self) (balance self).

Definition set___unpaid_advances (self : t) (x : list nat) : t :=
  make (advances self) x (payments self) (interest_paid self)
       (daily_interest_rate self) (balance self).

Definition set_payments (self : t) (x : list Payment.t) : t :=
  make (advances self) (__unpaid_advances self) x (interest_paid self)
       (daily_interest_rate self) (balance self).

Definition set_interest_paid (self : t) (x : Q) : t :=
  make (advances self) (__unpaid_advances self) (payments self) x
       (daily_interest_rate self) (balance self).

Definition set_balance (self : t) (x : Q) : t :=
  make (advances self) (__unpaid_advances self) (payments self) (interest_paid self)
       (daily_interest_rate self) x.

(* the object a reference points to *)
Definition deref (self : t) (r : nat) : option Advance.t := nth_error (advances self) r.

(* a mutation of the object a reference points to *)
Definition store (self : t) (r : nat) (a : Advance.t) : t :=
  set_advances self (list_set (advances self) r a).

(* __init__ *)
Definition init (daily_interest_rate balance : Q) : t :=
  make [] [] [] 0 daily_interest_rate balance.

(** *** The generator [unpaid_advances], driven by a [for] loop

    [for advance in self.unpaid_advances(): body].  The body receives the
    reference the generator yields, the ledger and its own local variables
    [l]; it runs between the [yield] and the statement after it.

    The first argument [n] of [unpaid_advances_loop] is [length - i], the
    number of iterations left of [while i < length]: every iteration either
    increments [i] or decrements [length].  [unpaid_advances_loop_eq] below
    is the equation of the source's loop. *)

Section Generator.
Variable L : Type.
Variable body : nat -> t -> L -> t * L * control.

Fixpoint unpaid_advances_loop (n i length : nat) (self : t) (l : L) : t * L * exit :=
  match n with
  | O => (self, l, Exhausted)
  | S n' =>
      match nth_error (__unpaid_advances self) i with
      | None => (self, l, Raised IndexError)
      | Some advance =>
          match deref self advance with
          | None => (self, l, Raised DanglingReference)
          | Some a =>
              if negb (Advance.is_close a) then
                (* yield advance *)
                match body advance self l with
                | (self, l, Break) => (self, l, Broke)
                | (self, l, Raise e) => (self, l, Raised e)
                | (self, l, Continue) =>
                    match deref self advance with
                    | None => (self, l, Raised DanglingReference)
                    | Some a =>
                        if Advance.is_close a then
                          match list_remove advance (__unpaid_advances self) with
                          | None => (self, l, Raised ValueError)
                          | Some us =>
                              (* i -= 1; length -= 1; then i += 1 *)
                              unpaid_advances_loop n' i (length - 1)
                                (set___unpaid_advances self us) l
                          end
                        else unpaid_advances_loop n' (S i) length self l
                    end
                end
              else unpaid_advances_loop n' (S i) length self l
          end
      end
  end.

Definition unpaid_advances (self : t) (l : L) : t * L * exit :=
  let length := List.length (__unpaid_advances self) in
  unpaid_advances_loop (length - 0) 0 length self l.

End Generator.
Arguments unpaid_advances_loop {L} body n i length self l.
Arguments unpaid_advances {L} body self l.

(* __pay_capital *)
Definition pay_capital_body (advance : nat) (self : t) (l : unit) : t * unit * control :=
  if Qeq_bool (balance self) 0 then (self, l, Break)
  else
    match deref self advance with
    | None => (self, l, Raise DanglingReference)
    | Some a =>
        let '(a, rest) := Advance.pay_capital a (balance self) in
        (set_balance (store self advance a) rest, l, Continue)
    end.

Definition __pay_capital (self : t) : t * result unit :=
  let '(self, _, x) := unpaid_advances pay_capital_body self tt in
  (self, result_of_exit x).

(* __pay_interest *)
Definition pay_interest_body (payment_date : string) (advance : nat) (self : t) (l : unit)
    : t * unit * control :=
  if Qeq_bool (balance self) 0 then (self, l, Break)
  else
    match deref self advance with
    | None => (self, l, Raise DanglingReference)
    | Some a =>
        match Advance.pay_interest a (balance self) payment_date with
        | (a, Err e) => (store self advance a, l, Raise e)
        | (a, Ok (rest, interest_paid)) =>
            let self := store self advance a in
            let self := set_balance self rest in
            (set_interest_paid self (Balance.interest_paid self + interest_paid), l, Continue)
        end
    end.

Definition __pay_interest (self : t) (payment_date : string) : t * result unit :=
  let '(self, _, x) := unpaid_advances (pay_interest_body payment_date) self tt in
  (self, result_of_exit x).

Definition add_advance (self : t) (advance_date : string) (amount : Q)
    (daily_interest_rate : option Q) : t * result unit :=
  let daily_interest_rate :=
    match daily_interest_rate with
    | None => Balance.daily_interest_rate self
    | Some r => r
    end in
  let remaining_amount := amount in
  let '(self, remaining_amount) :=
    if Qlt_bool remaining_amount (balance self) then
      (set_balance self (balance self - remaining_amount), 0)
    else
      (set_balance self 0, remaining_amount - balance self) in
  match Advance.init advance_date amount daily_interest_rate (Some remaining_amount) with
  | Err e => (self, Err e)
  | Ok advance =>
      let r := List.length (advances self) in   (* the reference to the new object *)
      let self := set_advances self (advances self ++ [advance]) in
      (set___unpaid_advances self (__unpaid_advances self ++ [r]), Ok tt)
  end.

Definition add_payment (self : t) (payment_date : string) (amount : Q) : t * result unit :=
  let self := set_payments self (payments self ++ [Payment.make payment_date amount]) in
  let self := set_balance self (balance self + amount) in
  match __pay_interest self payment_date with
  | (self, Err e) => (self, Err e)
  | (self, Ok _) => __pay_capital self
  end.

(* the list comprehension [a.remaining_amount for a in self.unpaid_advances()] *)
Definition remaining_amount_body (advance : nat) (self : t) (l : list Q)
    : t * list Q * control :=
  match deref self advance with
  | None => (self, l, Raise DanglingReference)
  | Some a => (self, l ++ [Advance.remaining_amount a], Continue)
  end.

Definition advances_balance (self : t) : t * result Q :=
  let '(self, l, x) := unpaid_advances remaining_amount_body self [] in
  (self, _ <- result_of_exit x ;; Ok (sum l)).

(* the list comprehension [a.interest_payable_balance(_to_date) for a in ...] *)
Definition interest_payable_body (_to_date : string) (advance : nat) (self : t) (l : list Q)
    : t * list Q * control :=
  match deref self advance with
  | None => (self, l, Raise DanglingReference)
  | Some a =>
      match Advance.interest_payable_balance a _to_date with
      | Err e => (self, l, Raise e)
      | Ok v => (self, l ++ [v], Continue)
      end
  end.

Definition interest_payable_balance (self : t) (to_date : string) : t * result Q :=
  match fromisoformat to_date with
  | None => (self, Err ValueError)
  | Some d =>
      match (delta <- timedelta 1 ;; date_add d delta) with
      | Err e => (self, Err e)
      | Ok d' =>
          let _to_date := isoformat d' in
          let '(self, l, x) := unpaid_advances (interest_payable_body _to_date) self [] in
          (self, _ <- result_of_exit x ;; Ok (sum l))
      end
  end.

(** *** Vocabulary of the statements *)

(* the advance [r] refers to is not paid off *)
Definition is_open (self : t) (r : nat) : bool :=
  match deref self r with
  | Some a => negb (Advance.is_close a)
  | None => false
  end.

(* the advance [r] refers to is paid off *)
Definition closed (self : t) (r : nat) : Prop :=
  exists a, deref self r = Some a /\ Advance.is_close a = true.

(* the open advances among the ones [rs] refers to, in the order of [rs] *)
Definition opens (self : t) (rs : list nat) : list Advance.t :=
  flat_map (fun r => match deref self r with
                     | Some a => if Advance.is_close a then [] else [a]
                     | None => []
                     end) rs.

(* the advances the generator yields when nothing is paid meanwhile *)
Definition open_advances (self : t) : list Advance.t :=
  opens self (__unpaid_advances self).

(** The heap is well formed: the working list holds references to existing
    advances, in creation order. *)
Definition wf (self : t) : Prop :=
  StronglySorted lt (__unpaid_advances self) /\
  Forall (fun r => (r < List.length (advances self))%nat) (__unpaid_advances self).

(** A loop body that touches the working list not at all and, of the
    advances, only the one it was handed. *)
Definition frame {L : Type} (body : nat -> t -> L -> t * L * control) : Prop :=
  forall r self l,
    let self' := fst (fst (body r self l)) in
    __unpaid_advances self' = __unpaid_advances self /\
    List.length (advances self') = List.length (advances self) /\
    forall r', r' <> r -> deref self' r' = deref self r'.

(** A body that also writes down the references it is handed, that is the
    ones the generator yields. *)
Definition traced {L : Type} (body : nat -> t -> L -> t * L * control)
    (advance : nat) (self : t) (lt : L * list nat) : t * (L * list nat) * control :=
  let '(self', l', c) := body advance self (fst lt) in
  (self', (l', snd lt ++ [advance]), c).

(** What remains of an advance is never negative, every advance not paid
    off is in the working list, and the dates are dates. *)
Definition nonneg (self : t) : Prop :=
  Forall (fun a => 0 <= Advance.remaining_amount a) (advances self).

Definition tracked (self : t) : Prop :=
  forall r, is_open self r = true -> In r (__unpaid_advances self).

Definition inv (self : t) : Prop :=
  wf self /\ nonneg self /\ tracked self /\ Forall Advance.valid (advances self).



(** Cash is left in the buffer only when no advance is open. *)
Definition settled (self : t) : Prop :=
  balance self == 0 \/
  Forall (fun a => Advance.remaining_amount a == 0) (advances self).

(** The ledgers the public operations produce when every amount passed to
    them is non-negative, whether an operation raised or not. *)
Inductive reachable : t -> Prop :=
| reachable_init (daily_interest_rate balance : Q) :
    0 <= balance -> reachable (init daily_interest_rate balance)
| reachable_add_advance (self : t) (advance_date : string) (amount : Q)
    (daily_interest_rate : option Q) :
    reachable self -> 0 <= amount ->
    reachable (fst (add_advance self advance_date amount daily_interest_rate))
| reachable_add_payment (self : t) (payment_date : string) (amount : Q) :
    reachable self -> 0 <= amount ->
    reachable (fst (add_payment self payment_date amount))
| reachable_advances_balance (self : t) :
    reachable self -> reachable (fst (advances_balance self))
| reachable_interest_payable_balance (self : t) (to_date : string) :
    reachable self -> reachable (fst (interest_payable_balance self to_date)).

(* what remains of the advance [r] refers to *)
Definition remaining_at (self : t) (r : nat) : option Q :=
  option_map Advance.remaining_amount (deref self r).

(* the capital owed: what remains of all the advances *)
Definition total_remaining (self : t) : Q :=
  sum (map Advance.remaining_amount (advances self)).



(** Every advance that was paid off in [self0] is in [self] as it was. *)
Definition closed_kept (self0 self : t) : Prop :=
  forall r a, deref self0 r = Some a -> Advance.is_close a = true -> deref self r = Some a.

(** [self] has the advances of [self0], each with the creation date, the
    initial amount and the rate it had. *)
Definition same_advances (self0 self : t) : Prop :=
  List.length (advances self) = List.length (advances self0) /\
  forall r a, deref self0 r = Some a ->
    exists a', deref self r = Some a' /\
      Advance.creation_date a' = Advance.creation_date a /\
      Advance.initial_amount a' = Advance.initial_amount a /\
      Advance.daily_interest_rate a' = Advance.daily_interest_rate a.


(* no advance has a negative rate *)
Definition rates_nonneg (self : t) : Prop :=
  Forall (fun a => 0 <= Advance.daily_interest_rate a) (advances self).



(* what the interest sweep keeps: the heap typing, what remains of every
   advance, and in the working list every advance that is not paid off *)
Definition interest_keeps (self0 self : t) : Prop :=
  wf self /\
  (forall r, remaining_at self r = remaining_at self0 r) /\
  (forall r, In r (__unpaid_advances self0) -> In r (__unpaid_advances self) \/ closed self r).

(* the references whose turn is over: all the yielded ones, but the last when
   the loop stopped there *)
Definition processed (x : exit) (ys : list nat) : list nat :=
  match x with
  | Exhausted => ys
  | _ => removelast ys
  end.

Definition mem (r : nat) (l : list nat) : bool := existsb (Nat.eqb r) l.

End Balance.


(** ** Ledgers and advances of the examples *)

Module Examples.

(* 1000 at 0.001 a day, created 2024-01-01 (ordinal 738886) *)
Definition advance_1000 : Advance.t :=
  Advance.make 738886%Z 1000 1000 (1 # 1000) 738886%Z.

(* the same at no interest *)
Definition advance_free : Advance.t :=
  Advance.make 738886%Z 1000 1000 0 738886%Z.

(* one open advance of 100 at 0.01 a day, created 2024-01-01 *)
Definition ledger_one : Balance.t :=
  fst (Balance.add_advance (Balance.init (1 # 100) 0) "2024-01-01" 100 None).


(* an advance of 100 paid from a cash buffer of 200 on creation *)
Definition ledger_prefunded : Balance.t :=
  fst (Balance.add_advance (Balance.init (1 # 100) 200) "2024-01-01" 100 None).

(* three open advances, of 100, 50 and 70, and 150 in the cash buffer: the
   state in which the capital sweep of a payment of 150 starts *)
Definition ledger_three : Balance.t :=
  let b := Balance.init (1 # 100) 0 in
  let b := fst (Balance.add_advance b "2024-01-01" 100 None) in
  let b := fst (Balance.add_advance b "2024-01-01" 50 None) in
  let b := fst (Balance.add_advance b "2024-01-01" 70 None) in
  Balance.set_balance b 150.

End Examples.

(** ** Tactics *)

(* boolean tests on integers, as propositions *)
Ltac bool_to_Z :=
  repeat match goal with
  | H : (_ =? _)%Z = true |- _ => apply Z.eqb_eq in H
  | H : (_ =? _)%Z = false |- _ => apply Z.eqb_neq in H
  | H : (_ <=? _)%Z = true |- _ => apply Z.leb_le in H
  | H : (_ <=? _)%Z = false |- _ => apply Z.leb_gt in H
  | H : (_ <? _)%Z = true |- _ => apply Z.ltb_lt in H
  | H : (_ <? _)%Z = false |- _ => apply Z.ltb_ge in H
  | H : _ && _ = true |- _ => apply andb_true_iff in H; destruct H
  end.

(* linear arithmetic with division and remainder by constants *)
Ltac div_lia := bool_to_Z; Z.div_mod_to_equations; lia.

(** * Properties *)

(** ** Numbers *)

Lemma Qlt_bool_iff (x y : Q) : Qlt_bool x y = true <-> x < y.
Proof.
  unfold Qlt_bool. rewrite negb_true_iff. split; intro H.
  - apply Qnot_le_lt. intro Hle. apply Qle_bool_iff in Hle. congruence.
  - destruct (Qle_bool y x) eqn:E; [|reflexivity].
    apply Qle_bool_iff in E. exfalso. exact (Qlt_not_le _ _ H E).
Qed.

Lemma Qlt_bool_false (x y : Q) : Qlt_bool x y = false <-> y <= x.
Proof.
  unfold Qlt_bool. rewrite negb_false_iff. apply Qle_bool_iff.
Qed.

Lemma Qle_bool_false (x y : Q) : Qle_bool x y = false <-> y < x.
Proof.
  rewrite <- Qlt_bool_iff. unfold Qlt_bool. rewrite negb_true_iff. reflexivity.
Qed.

Lemma Qeq_bool_false (x y : Q) : Qeq_bool x y = false <-> ~ x == y.
Proof.
  split; intro H.
  - intro E. apply Qeq_bool_iff in E. congruence.
  - destruct (Qeq_bool x y) eqn:E; [|reflexivity].
    apply Qeq_bool_iff in E. contradiction.
Qed.

(** The result of [*], [+], [-] and unary [-] is an int exactly when the
    operands are. *)
Lemma is_int_mult (x y : Q) : is_int (x * y) = is_int x && is_int y.
Proof.
  unfold is_int. destruct x as [a b], y as [c d]. cbn [Qmult Qden Qnum].
  destruct (Pos.eqb b 1) eqn:B, (Pos.eqb d 1) eqn:D; cbn [andb].
  - apply Pos.eqb_eq in B, D. subst. reflexivity.
  - apply Pos.eqb_neq. apply Pos.eqb_eq in B. apply Pos.eqb_neq in D. subst. lia.
  - apply Pos.eqb_neq. apply Pos.eqb_neq in B. apply Pos.eqb_eq in D. subst. lia.
  - apply Pos.eqb_neq. apply Pos.eqb_neq in B, D. nia.
Qed.

Lemma is_int_plus (x y : Q) : is_int (x + y) = is_int x && is_int y.
Proof. exact (is_int_mult x y). Qed.

Lemma is_int_opp (x : Q) : is_int (- x) = is_int x.
Proof. reflexivity. Qed.

Lemma is_int_minus (x y : Q) : is_int (x - y) = is_int x && is_int y.
Proof. unfold Qminus. now rewrite is_int_plus, is_int_opp. Qed.

Lemma is_int_inject_Z (k : Z) : is_int (inject_Z k) = true.
Proof. reflexivity. Qed.

(** ** Floats *)
Module FloatFacts.

Lemma round_half_even_le (n d M : Z) :
  (0 < d)%Z -> (n <= M * d)%Z -> (round_half_even n d <= M)%Z.
Proof.
  intros Hd H. unfold round_half_even.
  pose proof (Z.div_mod n d ltac:(lia)) as E.
  pose proof (Z.mod_pos_bound n d Hd) as B.
  assert (n / d <= M)%Z as Hq by (apply Z.div_le_upper_bound; lia).
  destruct (Z.eq_dec (n / d) M) as [e | ne].
  - assert (n mod d = 0)%Z as R by nia.
    rewrite R. replace (2 * 0 ?= d)%Z with Lt by (symmetry; apply Z.compare_lt_iff; lia).
    lia.
  - destruct (2 * (n mod d) ?= d)%Z; [destruct (Z.even (n / d)) | |]; lia.
Qed.

Lemma round_half_even_ge (n d M : Z) :
  (0 < d)%Z -> (M * d <= n)%Z -> (M <= round_half_even n d)%Z.
Proof.
  intros Hd H. unfold round_half_even.
  assert (M <= n / d)%Z as Hq by (apply Z.div_le_lower_bound; lia).
  destruct (2 * (n mod d) ?= d)%Z; [destruct (Z.even (n / d)) | |]; lia.
Qed.

Lemma log2_floor_le (a d : Z) :
  (0 < a)%Z -> (0 < d)%Z -> (0 <= log2_floor a d)%Z ->
  (d * 2 ^ log2_floor a d <= a)%Z.
Proof.
  intros Ha Hd. unfold log2_floor.
  pose proof (Z.log2_spec a Ha) as [A1 A2].
  pose proof (Z.log2_spec d Hd) as [D1 D2].
  pose proof (Z.log2_nonneg a) as An. pose proof (Z.log2_nonneg d) as Dn.
  set (l := (Z.log2 a - Z.log2 d)%Z) in *.
  destruct (0 <=? l)%Z eqn:L.
  - apply Z.leb_le in L.
    destruct (d * 2 ^ l <=? a)%Z eqn:T.
    + intros _. apply Z.leb_le in T. exact T.
    + intros H.
      assert (2 ^ Z.log2 a = 2 ^ (l - 1) * 2 ^ Z.succ (Z.log2 d))%Z as E.
      { rewrite <- Z.pow_add_r by lia. f_equal. unfold l. lia. }
      assert (0 < 2 ^ (l - 1))%Z by (apply Z.pow_pos_nonneg; lia).
      nia.
  - apply Z.leb_gt in L.
    destruct (d <=? a * 2 ^ (- l))%Z; intros H; lia.
Qed.

Lemma Qle_inject_Z_div (m p M : Z) :
  (0 < p)%Z -> (m <= M * p)%Z -> inject_Z m / inject_Z p <= inject_Z M.
Proof.
  intros Hp H. apply Qle_shift_div_r.
  - replace 0 with (inject_Z 0) by reflexivity. rewrite <- Zlt_Qlt. exact Hp.
  - rewrite <- inject_Z_mult, <- Zle_Qle. exact H.
Qed.

Lemma Qge_inject_Z_div (m p M : Z) :
  (0 < p)%Z -> (M * p <= m)%Z -> inject_Z M <= inject_Z m / inject_Z p.
Proof.
  intros Hp H. apply Qle_shift_div_l.
  - replace 0 with (inject_Z 0) by reflexivity. rewrite <- Zlt_Qlt. exact Hp.
  - rewrite <- inject_Z_mult, <- Zle_Qle. exact H.
Qed.

(** The float nearest to a quotient between 0 and 2^52 exists, and no integer
    lies between the quotient and it. *)
Lemma float_of_Q_small (q : Q) :
  0 <= q -> q < inject_Z (2 ^ 52) ->
  exists f, float_of_Q q = Ok f /\
    forall M : Z, (q <= inject_Z M -> f <= inject_Z M) /\
                  (inject_Z M <= q -> inject_Z M <= f).
Proof.
  intros H0 H1. unfold float_of_Q.
  destruct q as [n d]. cbn [Qnum Qden].
  assert (0 <= n)%Z as Hn by (unfold Qle in H0; simpl in H0; lia).
  assert (n < 2 ^ 52 * Z.pos d)%Z as Hlt by (unfold Qlt, inject_Z in H1; simpl in H1; lia).
  destruct (n =? 0)%Z eqn:N0.
  - apply Z.eqb_eq in N0. subst n. exists 0. split; [reflexivity |].
    intros M. split; intros H.
    + unfold Qle in *. simpl in *. lia.
    + unfold Qle in *. simpl in *. lia.
  - apply Z.eqb_neq in N0.
    assert (0 < n)%Z as Hp by lia.
    rewrite (Z.abs_eq n Hn), (Z.sgn_pos n Hp).
    set (t := log2_floor n (Z.pos d)).
    assert (t < 52)%Z as Ht.
    { destruct (Z_lt_le_dec t 52) as [L | L]; [exact L | exfalso].
      pose proof (log2_floor_le n (Z.pos d) Hp ltac:(lia) ltac:(fold t; lia)) as B.
      fold t in B.
      assert (2 ^ 52 <= 2 ^ t)%Z by (apply Z.pow_le_mono_r; lia).
      nia. }
    set (e := Z.max (t - 52) (-1074)).
    assert (e < 0)%Z as He by (unfold e; lia).
    replace (e <? 0)%Z with true by (symmetry; apply Z.ltb_lt; exact He).
    assert (0 < 2 ^ (- e))%Z as P by (apply Z.pow_pos_nonneg; lia).
    eexists. split; [reflexivity |].
    intros M. rewrite Z.mul_1_l. split; intros H.
    + apply Qle_inject_Z_div; [exact P |].
      apply round_half_even_le; [lia |].
      unfold Qle, inject_Z in H. simpl in H. nia.
    + apply Qge_inject_Z_div; [exact P |].
      apply round_half_even_ge; [lia |].
      unfold Qle, inject_Z in H. simpl in H. nia.
Qed.

Lemma Qfloor_le_Z (x : Q) (M : Z) : x <= inject_Z M -> (Qfloor x <= M)%Z.
Proof.
  intros H. rewrite <- (Qfloor_Z M). apply Qfloor_resp_le. exact H.
Qed.

Lemma Qfloor_ge_Z (x : Q) (M : Z) : inject_Z M <= x -> (M <= Qfloor x)%Z.
Proof.
  intros H. rewrite <- (Qfloor_Z M). apply Qfloor_resp_le. exact H.
Qed.

(** [floor(x / y)] on two ints whose exact quotient is between 0 and 2^52: the
    floor of the exact quotient, or one more. *)
Lemma float_of_Q_floor (q : Q) :
  0 <= q -> q < inject_Z (2 ^ 52) ->
  exists f, float_of_Q q = Ok f /\
    (Qfloor q <= Qfloor f <= Qfloor q + 1)%Z /\
    forall M : Z, q <= inject_Z M -> (Qfloor f <= M)%Z.
Proof.
  intros H0 H1. destruct (float_of_Q_small q H0 H1) as [f [E B]].
  exists f. split; [exact E |]. split; [split |].
  - apply Qfloor_ge_Z. apply (B (Qfloor q)). apply Qfloor_le.
  - apply Qfloor_le_Z. apply (B (Qfloor q + 1)%Z).
    apply Qlt_le_weak. apply Qlt_floor.
  - intros M H. apply Qfloor_le_Z. apply (B M). exact H.
Qed.

End FloatFacts.

(** ** The calendar *)

Module CalendarFacts.
Import Calendar.
Local Open Scope Z_scope.

Lemma digit_of_ascii_bounds (c : ascii) (k : Z) :
  digit_of_ascii c = Some k -> 0 <= k <= 9.
Proof.
  unfold digit_of_ascii.
  destruct (_ && _) eqn:E; [|discriminate].
  intro H. injection H as <-. lia.
Qed.

Lemma digit_of_ascii_of_digit (k : Z) :
  0 <= k <= 9 -> digit_of_ascii (ascii_of_digit k) = Some k.
Proof.
  intro H.
  assert (C : k = 0 \/ k = 1 \/ k = 2 \/ k = 3 \/ k = 4 \/ k = 5 \/ k = 6 \/ k = 7
              \/ k = 8 \/ k = 9) by lia.
  repeat match goal with C : _ \/ _ |- _ => destruct C end; subst k; reflexivity.
Qed.

Lemma days_before_year_bounds (year : Z) :
  1 <= year <= 9999 ->
  0 <= days_before_year year /\
  days_before_year year + (if is_leap year then 366 else 365) <= MAXORD.
Proof.
  unfold days_before_year, is_leap, MAXORD. intro H.
  destruct (year mod 4 =? 0) eqn:E4; simpl;
    [destruct (year mod 100 =? 0) eqn:E100; simpl;
     [destruct (year mod 400 =? 0) eqn:E400|]|]; simpl; div_lia.
Qed.

Lemma days_before_month_bounds (year month day : Z) :
  1 <= month <= 12 -> 1 <= day <= days_in_month year month ->
  1 <= days_before_month year month + day <= (if is_leap year then 366 else 365).
Proof.
  intros Hm Hd. unfold days_before_month, days_in_month, DAYS_BEFORE_MONTH in *.
  assert (C : month = 1 \/ month = 2 \/ month = 3 \/ month = 4 \/ month = 5 \/ month = 6
              \/ month = 7 \/ month = 8 \/ month = 9 \/ month = 10 \/ month = 11
              \/ month = 12) by lia.
  repeat match goal with C : _ \/ _ |- _ => destruct C end; subst month;
    destruct (is_leap year); cbv beta iota in *; simpl (_ <? _); simpl (_ && _);
    cbv beta iota; lia.
Qed.

Lemma ymd2ord_in_range (year month day : Z) :
  1 <= year <= 9999 -> 1 <= month <= 12 -> 1 <= day <= days_in_month year month ->
  in_range (ymd2ord year month day) = true.
Proof.
  intros Hy Hm Hd. unfold in_range, ymd2ord, MINORD.
  pose proof (days_before_year_bounds year Hy) as [H1 H2].
  pose proof (days_before_month_bounds year month day Hm Hd) as H3.
  apply andb_true_iff. split; apply Z.leb_le; destruct (is_leap year); lia.
Qed.


Lemma fromisoformat_ymd (s : string) (d : date) :
  fromisoformat s = Some d ->
  exists year month day,
    1 <= year <= 9999 /\ 1 <= month <= 12 /\ 1 <= day <= days_in_month year month /\
    d = ymd2ord year month day.
Proof.
  unfold fromisoformat.
  destruct (list_ascii_of_string s) as [|y3 [|y2 [|y1 [|y0 [|s1 [|m1 [|m0 [|s2 [|d1 [|d0 [|]]]]]]]]]]];
    try discriminate.
  destruct (digit_of_ascii y3) as [a|] eqn:Ea; [|discriminate].
  destruct (digit_of_ascii y2) as [b|] eqn:Eb; [|discriminate].
  destruct (digit_of_ascii y1) as [c|] eqn:Ec; [|discriminate].
  destruct (digit_of_ascii y0) as [e|] eqn:Ee; [|discriminate].
  destruct (digit_of_ascii m1) as [f|] eqn:Ef; [|discriminate].
  destruct (digit_of_ascii m0) as [g|] eqn:Eg; [|discriminate].
  destruct (digit_of_ascii d1) as [h|] eqn:Eh; [|discriminate].
  destruct (digit_of_ascii d0) as [i|] eqn:Ei; [|discriminate].
  cbv zeta. unfold MINYEAR, MAXYEAR.
  match goal with |- (if ?c then _ else _) = _ -> _ => destruct c eqn:E end; [|discriminate].
  intro H. injection H as <-.
  repeat (apply andb_true_iff in E; destruct E as [E ?]).
  bool_to_Z. eauto 10.
Qed.

Lemma fromisoformat_in_range (s : string) (d : date) :
  fromisoformat s = Some d -> in_range d = true.
Proof.
  intro H. apply fromisoformat_ymd in H as (y & m & dd & Hy & Hm & Hd & ->).
  now apply ymd2ord_in_range.
Qed.

Lemma month_day_all :
  forallb (fun k => month_day_ok true (Z.of_nat k) && month_day_ok false (Z.of_nat k))
          (seq 0 365) = true.
Proof. vm_compute. reflexivity. Qed.

Lemma month_day_spec (leapyear : bool) (n : Z) :
  0 <= n < 365 ->
  exists month day, month_day leapyear n = (month, day) /\
    1 <= month <= 12 /\ 1 <= day <= days_in_leap leapyear month /\
    DAYS_BEFORE_MONTH month + (if (2 <? month) && leapyear then 1 else 0) + day = n + 1.
Proof.
  intro H.
  pose proof month_day_all as A. rewrite forallb_forall in A.
  specialize (A (Z.to_nat n)). rewrite Z2Nat.id in A by lia.
  assert (I : In (Z.to_nat n) (seq 0 365)) by (apply in_seq; lia).
  apply A in I. apply andb_true_iff in I as [I1 I2].
  assert (I : month_day_ok leapyear n = true) by (destruct leapyear; assumption).
  clear - I. unfold month_day_ok in I.
  destruct (month_day leapyear n) as [month day].
  exists month, day. split; [reflexivity|].
  repeat (apply andb_true_iff in I; destruct I as [I ?]).
  bool_to_Z. lia.
Qed.


Lemma ord2ymd_spec (n : Z) :
  in_range n = true ->
  exists year month day, ord2ymd n = (year, month, day) /\
    1 <= year <= 9999 /\ 1 <= month <= 12 /\ 1 <= day <= days_in_month year month /\
    ymd2ord year month day = n.
Proof.
  unfold in_range, MINORD, MAXORD. intro R. bool_to_Z.
  unfold ord2ymd, DI400Y, DI100Y, DI4Y. cbv zeta.
  set (N := n - 1).
  set (n400 := N / 146097). set (r400 := N mod 146097).
  set (n100 := r400 / 36524). set (r100 := r400 mod 36524).
  set (n4 := r100 / 1461). set (r4 := r100 mod 1461).
  set (n1 := r4 / 365). set (r1 := r4 mod 365).
  assert (B400 : 0 <= n400 <= 24 /\ N = 146097 * n400 + r400 /\ 0 <= r400 < 146097)
    by (subst n400 r400 N; div_lia).
  assert (B100 : 0 <= n100 <= 4 /\ r400 = 36524 * n100 + r100 /\ 0 <= r100 < 36524)
    by (subst n100 r100; clearbody r400; div_lia).
  assert (B4 : 0 <= n4 <= 24 /\ r100 = 1461 * n4 + r4 /\ 0 <= r4 < 1461)
    by (subst n4 r4; clearbody r100; div_lia).
  assert (B1 : 0 <= n1 <= 4 /\ r4 = 365 * n1 + r1 /\ 0 <= r1 < 365)
    by (subst n1 r1; clearbody r4; div_lia).
  clearbody n400 r400 n100 r100 n4 r4 n1 r1.
  destruct ((n1 =? 4) || (n100 =? 4)) eqn:E.
  - exists (n400 * 400 + 1 + n100 * 100 + n4 * 4 + n1 - 1), 12, 31.
    split; [reflexivity|].
    assert (L : is_leap (n400 * 400 + 1 + n100 * 100 + n4 * 4 + n1 - 1) = true).
    { unfold is_leap. apply orb_true_iff in E.
      apply andb_true_iff; split; [|apply orb_true_iff];
        destruct E; bool_to_Z.
      - apply Z.eqb_eq. div_lia.
      - apply Z.eqb_eq. div_lia.
      - destruct (Z.eq_dec n4 24); [right|left].
        + apply Z.eqb_eq. div_lia.
        + apply negb_true_iff, Z.eqb_neq. div_lia.
      - right. apply Z.eqb_eq. div_lia. }
    unfold ymd2ord, days_before_month, days_in_month, days_before_year. rewrite L.
    apply orb_true_iff in E. simpl.
    destruct E; bool_to_Z; div_lia.
  - apply orb_false_iff in E as [E1 E2]. bool_to_Z.
    set (leapyear := (n1 =? 3) && (negb (n4 =? 24) || (n100 =? 3))).
    destruct (month_day_spec leapyear r1) as (month & day & -> & Hm & Hd & Hs); [lia|].
    exists (n400 * 400 + 1 + n100 * 100 + n4 * 4 + n1), month, day.
    split; [reflexivity|].
    assert (L : is_leap (n400 * 400 + 1 + n100 * 100 + n4 * 4 + n1) = leapyear).
    { unfold is_leap, leapyear.
      destruct (n1 =? 3) eqn:F1; bool_to_Z.
      - replace ((n400 * 400 + 1 + n100 * 100 + n4 * 4 + n1) mod 4 =? 0) with true
          by (symmetry; apply Z.eqb_eq; div_lia).
        simpl. destruct (n4 =? 24) eqn:F4; bool_to_Z; simpl.
        + replace ((n400 * 400 + 1 + n100 * 100 + n4 * 4 + n1) mod 100 =? 0) with true
            by (symmetry; apply Z.eqb_eq; div_lia).
          simpl. destruct (n100 =? 3) eqn:F100; bool_to_Z.
          * apply Z.eqb_eq. div_lia.
          * apply Z.eqb_neq. div_lia.
        + replace ((n400 * 400 + 1 + n100 * 100 + n4 * 4 + n1) mod 100 =? 0) with false
            by (symmetry; apply Z.eqb_neq; div_lia).
          reflexivity.
      - replace ((n400 * 400 + 1 + n100 * 100 + n4 * 4 + n1) mod 4 =? 0) with false
          by (symmetry; apply Z.eqb_neq; div_lia).
        reflexivity. }
    unfold ymd2ord, days_before_month, days_in_month, days_before_year. rewrite L.
    unfold days_in_leap in Hd.
    repeat split; try lia.
    subst N. div_lia.
Qed.


Lemma is_dash_dash : is_dash "-"%char = true.
Proof. reflexivity. Qed.

(** [date.fromisoformat] reads back what [date.isoformat] writes. *)
Lemma fromisoformat_isoformat (d : date) :
  in_range d = true -> fromisoformat (isoformat d) = Some d.
Proof.
  intro R. destruct (ord2ymd_spec d R) as (y & m & dd & E & Hy & Hm & Hd & Ho).
  unfold isoformat, fromisoformat. rewrite E.
  rewrite list_ascii_of_string_of_list_ascii.
  assert (Hdd : 1 <= dd <= 31).
  { unfold days_in_month in Hd.
    assert (C : m = 1 \/ m = 2 \/ m = 3 \/ m = 4 \/ m = 5 \/ m = 6 \/ m = 7 \/ m = 8
                \/ m = 9 \/ m = 10 \/ m = 11 \/ m = 12) by lia.
    repeat match goal with C : _ \/ _ |- _ => destruct C end; subst m;
      cbv beta iota in Hd; try destruct (is_leap y); lia. }
  rewrite !digit_of_ascii_of_digit by div_lia.
  rewrite !is_dash_dash. cbv zeta.
  replace (1000 * (y / 1000) + 100 * (y / 100 mod 10) + 10 * (y / 10 mod 10) + y mod 10)
    with y by div_lia.
  replace (10 * (m / 10) + m mod 10) with m by div_lia.
  replace (10 * (dd / 10) + dd mod 10) with dd by div_lia.
  unfold MINYEAR, MAXYEAR.
  replace (1 <=? y) with true by (symmetry; apply Z.leb_le; lia).
  replace (y <=? 9999) with true by (symmetry; apply Z.leb_le; lia).
  replace (1 <=? m) with true by (symmetry; apply Z.leb_le; lia).
  replace (m <=? 12) with true by (symmetry; apply Z.leb_le; lia).
  replace (1 <=? dd) with true by (symmetry; apply Z.leb_le; lia).
  replace (dd <=? days_in_month y m) with true by (symmetry; apply Z.leb_le; lia).
  simpl. now rewrite Ho.
Qed.


Lemma timedelta_ok (days : Z) :
  - 999999999 <= days <= 999999999 -> timedelta days = Ok days.
Proof.
  intro H. unfold timedelta, MAX_DELTA_DAYS.
  destruct (_ && _) eqn:E; [reflexivity|].
  apply andb_false_iff in E as [E|E]; bool_to_Z; lia.
Qed.

Lemma date_add_ok (d : date) (delta : Z) :
  1 <= d + delta <= 3652059 -> date_add d delta = Ok (d + delta).
Proof.
  intro H. unfold date_add, in_range, MINORD, MAXORD. cbv zeta.
  destruct (_ && _) eqn:E; [reflexivity|].
  apply andb_false_iff in E as [E|E]; bool_to_Z; lia.
Qed.

Lemma in_range_iff (d : Z) : in_range d = true <-> 1 <= d <= 3652059.
Proof.
  unfold in_range, MINORD, MAXORD. rewrite andb_true_iff, !Z.leb_le. tauto.
Qed.

End CalendarFacts.

(** ** Advance *)

Module AdvanceFacts.
Import Calendar CalendarFacts Advance.

Lemma interest_payable_balance_inv (self : t) (to_date : string) (interest : Q) :
  interest_payable_balance self to_date = Ok interest ->
  exists d, fromisoformat to_date = Some d /\
    interest = inject_Z (days_between (last_interest_payment_date self) d)
               * interest_by_day self.
Proof.
  unfold interest_payable_balance, __days_from_last_interest_payment, days_between.
  destruct (fromisoformat to_date) as [d|]; [|discriminate].
  intro H. exists d. split; [reflexivity|].
  destruct (d <=? last_interest_payment_date self)%Z; simpl in H; congruence.
Qed.

Lemma interest_payable_balance_date (self : t) (to_date : string) (d : date) :
  fromisoformat to_date = Some d ->
  interest_payable_balance self to_date = Ok (interest_payable_at self d).
Proof.
  unfold interest_payable_balance, __days_from_last_interest_payment,
    interest_payable_at, days_between.
  intros ->. destruct (d <=? last_interest_payment_date self)%Z; reflexivity.
Qed.

Lemma days_between_nonneg (d1 d2 : date) : (0 <= days_between d1 d2)%Z.
Proof.
  unfold days_between, date_sub_days. destruct (d2 <=? d1)%Z eqn:E; [lia|].
  apply Z.leb_gt in E. lia.
Qed.

Lemma days_between_pos (d1 d2 : date) : (0 < days_between d1 d2)%Z -> (d2 = d1 + days_between d1 d2)%Z.
Proof.
  unfold days_between, date_sub_days. destruct (d2 <=? d1)%Z eqn:E; lia.
Qed.

(* the whole days [amount] pays for *)
Lemma days_covered_bounds (amount ibd : Q) (days : Z) :
  0 < ibd -> 0 <= amount -> amount < inject_Z days * ibd ->
  (0 <= Qfloor (amount / ibd) < days)%Z.
Proof.
  intros Hi Ha Hlt.
  assert (Hq : 0 <= amount / ibd).
  { apply Qle_shift_div_l; [assumption|]. now rewrite Qmult_0_l. }
  assert (Hd : amount / ibd < inject_Z days) by now apply Qlt_shift_div_r.
  split.
  - change 0%Z with (Qfloor 0). now apply Qfloor_resp_le.
  - rewrite Zlt_Qlt. eapply Qle_lt_trans; [apply Qfloor_le | exact Hd].
Qed.

Lemma days_covered_rest (amount ibd : Q) :
  0 < ibd -> 0 <= amount - inject_Z (Qfloor (amount / ibd)) * ibd.
Proof.
  intro Hi.
  assert (H : inject_Z (Qfloor (amount / ibd)) * ibd <= amount).
  { assert (E : amount == amount / ibd * ibd).
    { field. intro Z. rewrite Z in Hi. discriminate. }
    rewrite E at 2. apply Qmult_le_compat_r; [apply Qfloor_le | now apply Qlt_le_weak]. }
  setoid_replace 0 with (inject_Z (Qfloor (amount / ibd)) * ibd
                         - inject_Z (Qfloor (amount / ibd)) * ibd) by ring.
  apply Qplus_le_l. exact H.
Qed.



(* amount / interest_by_day when the amount is less than the interest of
   [days] days: no integer lies between the quotient and what Python makes of
   it *)
Lemma true_div_days (amount ibd : Q) (days : Z) :
  0 < ibd -> 0 <= amount -> amount < inject_Z days * ibd -> (days <= 3652059)%Z ->
  exists quotient, true_div amount ibd = Ok quotient /\
    (0 <= Qfloor quotient <= days)%Z /\
    (Qfloor (amount / ibd) <= Qfloor quotient <= Qfloor (amount / ibd) + 1)%Z /\
    (is_int amount && is_int ibd = false -> quotient = amount / ibd).
Proof.
  intros Hi Ha Hlt Hdays.
  pose proof (days_covered_bounds _ _ _ Hi Ha Hlt) as [K0 K1].
  assert (Hq : 0 <= amount / ibd).
  { apply Qle_shift_div_l; [assumption|]. now rewrite Qmult_0_l. }
  assert (Hd : amount / ibd < inject_Z days) by now apply Qlt_shift_div_r.
  unfold true_div.
  replace (Qeq_bool ibd 0) with false.
  2:{ symmetry. apply Qeq_bool_false. intro E. rewrite E in Hi. discriminate. }
  destruct (is_int amount && is_int ibd).
  - assert (Hs : amount / ibd < inject_Z (2 ^ 52)).
    { eapply Qlt_le_trans; [exact Hd|]. rewrite <- Zle_Qle. lia. }
    destruct (FloatFacts.float_of_Q_floor _ Hq Hs) as (f & E & B & M).
    exists f. split; [exact E|].
    pose proof (M days (Qlt_le_weak _ _ Hd)).
    split; [lia|]. split; [exact B | discriminate].
  - exists (amount / ibd). split; [reflexivity|].
    split; [lia|]. split; [lia | reflexivity].
Qed.

(* a payment that does not cover the interest accrued pays for whole days, as
   many as the floor of Python's quotient *)
Lemma pay_interest_days (self : t) (amount : Q) (payment_date : string) (d : date) :
  valid self ->
  0 < interest_by_day self ->
  fromisoformat payment_date = Some d ->
  0 <= amount -> amount < interest_payable_at self d ->
  exists quotient, true_div amount (interest_by_day self) = Ok quotient /\
    (0 <= Qfloor quotient <= days_between (last_interest_payment_date self) d)%Z /\
    (Qfloor (amount / interest_by_day self) <= Qfloor quotient
       <= Qfloor (amount / interest_by_day self) + 1)%Z /\
    (is_int amount && is_int (interest_by_day self) = false ->
       quotient = amount / interest_by_day self) /\
    pay_interest self amount payment_date =
      (set_last_interest_payment_date self
         (last_interest_payment_date self + Qfloor quotient)%Z,
       Ok (amount - inject_Z (Qfloor quotient) * interest_by_day self,
           inject_Z (Qfloor quotient) * interest_by_day self)).
Proof.
  intros [_ Hv] Hi Hd Ha Hlt.
  pose proof (fromisoformat_in_range _ _ Hd) as Rd.
  pose proof (days_covered_bounds _ _ _ Hi Ha Hlt) as [K0 K1].
  assert (Hpos : (0 < days_between (last_interest_payment_date self) d)%Z) by lia.
  apply days_between_pos in Hpos.
  unfold in_range, MINORD, MAXORD in *. bool_to_Z.
  destruct (true_div_days amount (interest_by_day self) _ Hi Ha Hlt ltac:(lia))
    as (quotient & E & B & F & X).
  exists quotient. split; [exact E|]. split; [exact B|].
  split; [exact F|]. split; [exact X|].
  unfold pay_interest. rewrite (interest_payable_balance_date self _ _ Hd).
  apply Qle_bool_false in Hlt. rewrite Hlt.
  cbv zeta. rewrite E.
  rewrite timedelta_ok by lia. cbv beta iota delta [bind].
  rewrite date_add_ok by lia.
  reflexivity.
Qed.

(* the same when the amount or the interest of a day is a Fraction: the
   quotient is exact *)
Lemma pay_interest_partial (self : t) (amount : Q) (payment_date : string) (interest : Q) :
  valid self ->
  0 < interest_by_day self ->
  interest_payable_balance self payment_date = Ok interest ->
  0 <= amount -> amount < interest ->
  is_int amount && is_int (interest_by_day self) = false ->
  pay_interest self amount payment_date =
    (set_last_interest_payment_date self
       (last_interest_payment_date self + Qfloor (amount / interest_by_day self))%Z,
     Ok (amount - inject_Z (Qfloor (amount / interest_by_day self)) * interest_by_day self,
         inject_Z (Qfloor (amount / interest_by_day self)) * interest_by_day self)).
Proof.
  intros V Hi Hb Ha Hlt Hx.
  destruct (interest_payable_balance_inv _ _ _ Hb) as (d & Hd & ->).
  destruct (pay_interest_days self amount payment_date d V Hi Hd Ha Hlt)
    as (quotient & _ & _ & _ & X & E).
  rewrite E, (X Hx). reflexivity.
Qed.

Lemma pay_interest_full (self : t) (amount : Q) (payment_date : string) (d : date) :
  fromisoformat payment_date = Some d ->
  interest_payable_at self d <= amount ->
  pay_interest self amount payment_date =
    (set_last_interest_payment_date self d,
     Ok (amount - interest_payable_at self d, interest_payable_at self d)).
Proof.
  intros Hd Hle. unfold pay_interest.
  rewrite (interest_payable_balance_date self _ _ Hd).
  apply Qle_bool_iff in Hle. rewrite Hle, Hd. reflexivity.
Qed.

Lemma Qmult_pos_r (k : Z) (x : Q) : (0 <= k)%Z -> 0 < inject_Z k * x -> 0 < x.
Proof.
  intros Hk H. destruct (Qlt_le_dec 0 x) as [|Hx]; [assumption|]. exfalso.
  apply (Qlt_not_le _ _ H).
  setoid_replace (inject_Z k * x) with (x * inject_Z k) by ring.
  setoid_replace 0 with (0 * inject_Z k) by ring.
  apply Qmult_le_compat_r; [assumption|].
  change 0 with (inject_Z 0). now rewrite <- Zle_Qle.
Qed.

Lemma pay_capital_fields (self : t) (amount : Q) :
  let self' := fst (pay_capital self amount) in
  creation_date self' = creation_date self /\
  initial_amount self' = initial_amount self /\
  daily_interest_rate self' = daily_interest_rate self /\
  last_interest_payment_date self' = last_interest_payment_date self.
Proof.
  unfold pay_capital. cbv zeta.
  destruct (Qlt_bool _ _); simpl; auto.
Qed.

Lemma pay_capital_spec (self : t) (amount : Q) :
  remaining_amount (fst (pay_capital self amount)) == Qmax 0 (remaining_amount self - amount) /\
  snd (pay_capital self amount) == Qmax 0 (amount - remaining_amount self).
Proof.
  unfold pay_capital. cbv zeta. simpl remaining_amount.
  destruct (Qlt_bool (remaining_amount self - amount) 0) eqn:E; simpl.
  - apply Qlt_bool_iff in E. apply Qlt_le_weak in E. split.
    + symmetry. now apply Q.max_l.
    + rewrite Q.max_r; [ring|].
      setoid_replace (amount - remaining_amount self)
        with (- (remaining_amount self - amount)) by ring.
      setoid_replace 0 with (- 0) at 1 by ring. apply Qopp_le_compat. exact E.
  - apply Qlt_bool_false in E. split.
    + symmetry. now apply Q.max_r.
    + symmetry. apply Q.max_l.
      setoid_replace (amount - remaining_amount self)
        with (- (remaining_amount self - amount)) by ring.
      setoid_replace 0 with (- 0) by ring. apply Qopp_le_compat. exact E.
Qed.

End AdvanceFacts.

(** ** Lists *)

Lemma list_remove_app (x : nat) (l1 l2 : list nat) :
  ~ In x l1 -> list_remove x (l1 ++ x :: l2) = Some (l1 ++ l2).
Proof.
  induction l1 as [|y l1 IH]; simpl; intro H.
  - now rewrite Nat.eqb_refl.
  - destruct (Nat.eqb y x) eqn:E.
    + apply Nat.eqb_eq in E. tauto.
    + rewrite IH by tauto. reflexivity.
Qed.

Lemma nth_error_list_set_eq {A : Type} (l : list A) (i : nat) (x : A) :
  (i < List.length l)%nat -> nth_error (list_set l i x) i = Some x.
Proof.
  revert i. induction l as [|y l IH]; intros [|i] H; simpl in *; try lia.
  - reflexivity.
  - apply IH. lia.
Qed.

Lemma nth_error_list_set_ne {A : Type} (l : list A) (i j : nat) (x : A) :
  i <> j -> nth_error (list_set l i x) j = nth_error l j.
Proof.
  revert i j. induction l as [|y l IH]; intros [|i] [|j] H; simpl; try reflexivity.
  - congruence.
  - apply IH. congruence.
Qed.

Lemma length_list_set {A : Type} (l : list A) (i : nat) (x : A) :
  List.length (list_set l i x) = List.length l.
Proof.
  revert i. induction l as [|y l IH]; intros [|i]; simpl; auto.
Qed.

(** ** The generator *)

Module GeneratorFacts.
Import Balance.

Section Loop.
Variable L : Type.
Variable body : nat -> t -> L -> t * L * control.

(** The equation of the source's loop:
    [while i < length: ...; i += 1], with the removal in the middle. *)
Lemma unpaid_advances_loop_eq (i length : nat) (self : t) (l : L) :
  unpaid_advances_loop body (length - i) i length self l =
  if (i <? length)%nat then
    match nth_error (__unpaid_advances self) i with
    | None => (self, l, Raised IndexError)
    | Some advance =>
        match deref self advance with
        | None => (self, l, Raised DanglingReference)
        | Some a =>
            if negb (Advance.is_close a) then
              match body advance self l with
              | (self, l, Break) => (self, l, Broke)
              | (self, l, Raise e) => (self, l, Raised e)
              | (self, l, Continue) =>
                  match deref self advance with
                  | None => (self, l, Raised DanglingReference)
                  | Some a =>
                      if Advance.is_close a then
                        match list_remove advance (__unpaid_advances self) with
                        | None => (self, l, Raised ValueError)
                        | Some us =>
                            unpaid_advances_loop body (length - 1 - i) i (length - 1)
                              (set___unpaid_advances self us) l
                        end
                      else unpaid_advances_loop body (length - S i) (S i) length self l
                  end
              end
            else unpaid_advances_loop body (length - S i) (S i) length self l
        end
    end
  else (self, l, Exhausted).
Proof.
  destruct (i <? length)%nat eqn:E.
  - apply Nat.ltb_lt in E.
    replace (length - i)%nat with (S (length - S i)) by lia.
    replace (length - 1 - i)%nat with (length - S i)%nat by lia.
    reflexivity.
  - apply Nat.ltb_ge in E. replace (length - i)%nat with O by lia. reflexivity.
Qed.

Hypothesis body_unpaid : forall r self l,
  __unpaid_advances (fst (fst (body r self l))) = __unpaid_advances self.

(** One iteration, when the working list is [kept ++ advance :: todo] and
    the index stands at [advance]. *)
Lemma unpaid_advances_loop_cons (kept todo : list nat) (advance length : nat)
    (self : t) (l : L) :
  __unpaid_advances self = kept ++ advance :: todo ->
  ~ In advance kept ->
  unpaid_advances_loop body (S (List.length todo)) (List.length kept) length self l =
  match deref self advance with
  | None => (self, l, Raised DanglingReference)
  | Some a =>
      if negb (Advance.is_close a) then
        match body advance self l with
        | (self, l, Break) => (self, l, Broke)
        | (self, l, Raise e) => (self, l, Raised e)
        | (self, l, Continue) =>
            match deref self advance with
            | None => (self, l, Raised DanglingReference)
            | Some a =>
                if Advance.is_close a then
                  unpaid_advances_loop body (List.length todo) (List.length kept) (length - 1)
                    (set___unpaid_advances self (kept ++ todo)) l
                else
                  unpaid_advances_loop body (List.length todo) (List.length (kept ++ [advance]))
                    length self l
            end
        end
      else
        unpaid_advances_loop body (List.length todo) (List.length (kept ++ [advance]))
          length self l
  end.
Proof.
  intros Hu Hn. simpl.
  rewrite Hu, nth_error_app2, Nat.sub_diag by lia. simpl.
  rewrite length_app, Nat.add_1_r.
  destruct (deref self advance) as [a|]; [|reflexivity].
  destruct (negb (Advance.is_close a)); [|reflexivity].
  pose proof (body_unpaid advance self l) as Hb.
  destruct (body advance self l) as [[self' l'] c]. simpl in Hb.
  destruct c; try reflexivity.
  destruct (deref self' advance) as [a'|]; [|reflexivity].
  destruct (Advance.is_close a'); [|reflexivity].
  now rewrite Hb, Hu, list_remove_app.
Qed.

End Loop.


Lemma frame_unpaid {L : Type} (body : nat -> t -> L -> t * L * control) :
  frame body ->
  forall r self l, __unpaid_advances (fst (fst (body r self l))) = __unpaid_advances self.
Proof. intros F r self l. apply (F r self l). Qed.

Lemma traced_unpaid {L : Type} (body : nat -> t -> L -> t * L * control) :
  frame body ->
  forall r self l, __unpaid_advances (fst (fst (traced body r self l))) = __unpaid_advances self.
Proof.
  intros F r self [l tr]. unfold traced. simpl.
  pose proof (F r self l) as [H _]. cbv zeta in H.
  destruct (body r self l) as [[s1 l1] c]. exact H.
Qed.

Lemma deref_Some (self : t) (r : nat) :
  (r < List.length (advances self))%nat -> exists a, deref self r = Some a.
Proof.
  intro H. unfold deref. destruct (nth_error (advances self) r) eqn:E; [eauto|].
  apply nth_error_None in E. lia.
Qed.

Lemma is_open_deref (self self' : t) (r : nat) :
  deref self' r = deref self r -> is_open self' r = is_open self r.
Proof. unfold is_open. now intros ->. Qed.

Lemma is_open_set_unpaid (self : t) (us : list nat) (r : nat) :
  is_open (set___unpaid_advances self us) r = is_open self r.
Proof. reflexivity. Qed.

Lemma mem_In (r : nat) (l : list nat) : mem r l = true <-> In r l.
Proof.
  unfold mem. rewrite existsb_exists. split.
  - intros (y & Hy & E). apply Nat.eqb_eq in E. now subst.
  - intro H. exists r. split; [assumption | apply Nat.eqb_refl].
Qed.

Lemma mem_not_In (r : nat) (l : list nat) : ~ In r l -> mem r l = false.
Proof.
  intro H. destruct (mem r l) eqn:E; [|reflexivity]. apply mem_In in E. contradiction.
Qed.

Lemma processed_cons (x : exit) (r : nat) (ys : list nat) :
  x = Exhausted \/ ys <> [] -> processed x (r :: ys) = r :: processed x ys.
Proof.
  intros [-> | H]; [reflexivity|].
  destruct x; [reflexivity| |]; simpl; destruct ys; congruence.
Qed.

Lemma In_processed (x : exit) (r : nat) (ys : list nat) :
  In r (processed x ys) -> In r ys.
Proof.
  destruct x; simpl; auto; intro H.
  - destruct ys as [|y ys]; [assumption|].
    rewrite (app_removelast_last O (l := y :: ys)) by discriminate.
    apply in_or_app. now left.
  - destruct ys as [|y ys]; [assumption|].
    rewrite (app_removelast_last O (l := y :: ys)) by discriminate.
    apply in_or_app. now left.
Qed.

Section Traced.
Variable L : Type.
Variable body : nat -> t -> L -> t * L * control.
Hypothesis body_frame : frame body.

Lemma unpaid_advances_loop_traced (todo : list nat) :
  forall (kept : list nat) (self : t) (l : L) (tr : list nat) (length : nat)
         (self' : t) (l' : L) (tr' : list nat) (x : exit),
  __unpaid_advances self = kept ++ todo ->
  NoDup (kept ++ todo) ->
  Forall (fun r => (r < List.length (advances self))%nat) todo ->
  unpaid_advances_loop (traced body) (List.length todo) (List.length kept) length self (l, tr)
    = (self', (l', tr'), x) ->
  exists ys rest,
    tr' = tr ++ ys /\
    filter (is_open self) todo = ys ++ rest /\
    (x = Exhausted -> rest = []) /\
    (x = Exhausted \/ ys <> []) /\
    __unpaid_advances self' =
      kept ++ filter (fun r => negb (mem r (processed x ys) && negb (is_open self' r))) todo /\
    (forall r, ~ In r ys -> deref self' r = deref self r) /\
    List.length (advances self') = List.length (advances self).
Proof.
  induction todo as [|r todo IH]; intros kept self l tr len self' l' tr' x Hu Hnd Hr.
  - simpl. intro H. injection H as <- <- <- <-.
    exists [], []. rewrite !app_nil_r in *. simpl. repeat split; auto.
  - assert (Hrk : ~ In r kept).
    { intro Hi. apply NoDup_remove_2 in Hnd. apply Hnd, in_or_app. now left. }
    assert (Hrt : ~ In r todo).
    { intro Hi. apply NoDup_remove_2 in Hnd. apply Hnd, in_or_app. now right. }
    assert (Hnd1 : NoDup (kept ++ todo)) by now apply NoDup_remove_1 in Hnd.
    assert (Hnd2 : NoDup ((kept ++ [r]) ++ todo)) by now rewrite <- app_assoc.
    inversion Hr as [|? ? Hr1 Hr2]; subst.
    change (List.length (r :: todo)) with (S (List.length todo)).
    rewrite (unpaid_advances_loop_cons _ (traced body) (traced_unpaid body body_frame)
               kept todo r len self (l, tr) Hu Hrk).
    destruct (deref_Some self r Hr1) as [a Ha]. rewrite Ha.
    assert (Ho : is_open self r = negb (Advance.is_close a)) by (unfold is_open; now rewrite Ha).
    destruct (negb (Advance.is_close a)) eqn:Ec.
    + (* yielded *)
      pose proof (body_frame r self l) as (F1 & F2 & F3). cbv zeta in F1, F2, F3.
      unfold traced at 1. simpl fst. simpl snd.
      destruct (body r self l) as [[s1 l1] c] eqn:Eb. simpl in F1, F2, F3.
      assert (Hopen : forall r', In r' todo -> is_open s1 r' = is_open self r').
      { intros r' Hi. apply is_open_deref, F3. intro. subst. contradiction. }
      destruct c.
      * (* the body fell through *)
        assert (Hr1' : (r < List.length (advances s1))%nat) by lia.
        destruct (deref_Some s1 r Hr1') as [a1 Ha1]. rewrite Ha1.
        destruct (Advance.is_close a1) eqn:Ec1.
        -- (* closed by the body: removed *)
           intro H.
           apply IH in H as (ys & rest & E1 & E2 & E3 & E4 & E5 & E6 & E7);
             [| reflexivity | assumption | simpl; now rewrite F2].
           exists (r :: ys), rest. simpl in E6, E7.
           assert (Hys : forall r', In r' ys -> In r' todo).
           { intros r' Hi.
             assert (Hi' : In r' (filter (is_open (set___unpaid_advances s1 (kept ++ todo))) todo))
               by (rewrite E2; apply in_or_app; now left).
             now apply filter_In in Hi'. }
           assert (Hry : ~ In r ys) by (intro Hi; apply Hrt, Hys, Hi).
           repeat split.
           ++ rewrite E1, <- app_assoc. reflexivity.
           ++ simpl. rewrite Ho. simpl. f_equal. rewrite <- E2.
              apply filter_ext_in. intros r' Hi. symmetry. now apply Hopen.
           ++ exact E3.
           ++ right. discriminate.
           ++ rewrite E5. f_equal. simpl filter.
              rewrite (processed_cons x r ys E4). simpl mem. rewrite Nat.eqb_refl. simpl orb.
              assert (Hc : is_open self' r = false).
              { rewrite (is_open_deref _ _ _ (E6 r Hry)). unfold is_open. simpl.
                change (deref s1 r) with (nth_error (advances s1) r) in Ha1.
                unfold deref. simpl. rewrite Ha1, Ec1. reflexivity. }
              rewrite Hc. simpl. apply filter_ext_in. intros r' Hi.
              assert (Hne : Nat.eqb r' r = false)
                by (apply Nat.eqb_neq; intro; subst; contradiction).
              rewrite Hne. reflexivity.
           ++ intros r' Hi. rewrite E6 by (intro; apply Hi; now right).
              apply F3. intro. subst. apply Hi. now left.
           ++ rewrite E7. exact F2.
        -- (* still open: kept *)
           intro H.
           apply IH in H as (ys & rest & E1 & E2 & E3 & E4 & E5 & E6 & E7);
             [| rewrite F1, Hu, <- app_assoc; reflexivity | assumption | now rewrite F2].
           exists (r :: ys), rest.
           assert (Hys : forall r', In r' ys -> In r' todo).
           { intros r' Hi.
             assert (Hi' : In r' (filter (is_open s1) todo))
               by (rewrite E2; apply in_or_app; now left).
             now apply filter_In in Hi'. }
           assert (Hry : ~ In r ys) by (intro Hi; apply Hrt, Hys, Hi).
           repeat split.
           ++ rewrite E1, <- app_assoc. reflexivity.
           ++ simpl. rewrite Ho. simpl. f_equal. rewrite <- E2.
              apply filter_ext_in. intros r' Hi. symmetry. now apply Hopen.
           ++ exact E3.
           ++ right. discriminate.
           ++ rewrite E5, <- app_assoc. f_equal. simpl filter.
              rewrite (processed_cons x r ys E4). simpl mem. rewrite Nat.eqb_refl. simpl orb.
              assert (Hc : is_open self' r = true).
              { rewrite (is_open_deref _ _ _ (E6 r Hry)). unfold is_open.
                rewrite Ha1, Ec1. reflexivity. }
              rewrite Hc. simpl. f_equal. apply filter_ext_in. intros r' Hi.
              assert (Hne : Nat.eqb r' r = false)
                by (apply Nat.eqb_neq; intro; subst; contradiction).
              rewrite Hne. reflexivity.
           ++ intros r' Hi. rewrite E6 by (intro; apply Hi; now right).
              apply F3. intro. subst. apply Hi. now left.
           ++ rewrite E7. exact F2.
      * (* break *)
        intro H. injection H as <- <- <- <-.
        exists [r], (filter (is_open self) todo). repeat split.
        -- simpl. now rewrite Ho.
        -- discriminate.
        -- right. discriminate.
        -- rewrite F1, Hu. f_equal. simpl.
           f_equal. symmetry. apply forallb_filter_id. apply forallb_forall. reflexivity.
        -- intros r' Hi. apply F3. intro. subst. apply Hi. now left.
        -- exact F2.
      * (* raise *)
        intro H. injection H as <- <- <- <-.
        exists [r], (filter (is_open self) todo). repeat split.
        -- simpl. now rewrite Ho.
        -- discriminate.
        -- right. discriminate.
        -- rewrite F1, Hu. f_equal. simpl.
           f_equal. symmetry. apply forallb_filter_id. apply forallb_forall. reflexivity.
        -- intros r' Hi. apply F3. intro. subst. apply Hi. now left.
        -- exact F2.
    + (* closed when reached: skipped *)
      intro H.
      apply IH in H as (ys & rest & E1 & E2 & E3 & E4 & E5 & E6 & E7);
        [| rewrite Hu, <- app_assoc; reflexivity | assumption | assumption].
      exists ys, rest.
      assert (Hys : forall r', In r' ys -> In r' todo).
      { intros r' Hi.
        assert (Hi' : In r' (filter (is_open self) todo))
          by (rewrite E2; apply in_or_app; now left).
        now apply filter_In in Hi'. }
      assert (Hry : ~ In r ys) by (intro Hi; apply Hrt, Hys, Hi).
      repeat split; auto.
      * simpl. rewrite Ho. exact E2.
      * rewrite E5, <- app_assoc. f_equal. simpl filter.
        rewrite (mem_not_In r (processed x ys)); [reflexivity|].
        intro Hi. apply Hry. eapply In_processed. exact Hi.
Qed.

End Traced.

End GeneratorFacts.

(** ** The loop bodies *)

Module BodyFacts.
Import Calendar CalendarFacts AdvanceFacts Balance GeneratorFacts.

Lemma deref_store_eq (self : t) (r : nat) (a : Advance.t) :
  (r < List.length (advances self))%nat -> deref (store self r a) r = Some a.
Proof. intro H. unfold deref, store. simpl. now apply nth_error_list_set_eq. Qed.

Lemma deref_store_ne (self : t) (r r' : nat) (a : Advance.t) :
  r' <> r -> deref (store self r a) r' = deref self r'.
Proof. intro H. unfold deref, store. simpl. apply nth_error_list_set_ne. congruence. Qed.

Lemma length_store (self : t) (r : nat) (a : Advance.t) :
  List.length (advances (store self r a)) = List.length (advances self).
Proof. unfold store. simpl. apply length_list_set. Qed.

Lemma deref_lt (self : t) (r : nat) (a : Advance.t) :
  deref self r = Some a -> (r < List.length (advances self))%nat.
Proof. intro H. apply nth_error_Some. unfold deref in H. congruence. Qed.

Lemma list_set_same {A : Type} (l : list A) (i : nat) (x : A) :
  nth_error l i = Some x -> list_set l i x = l.
Proof.
  revert i. induction l as [|y l IH]; intros [|i] H; simpl in *; try congruence.
  f_equal. now apply IH.
Qed.

Lemma store_same (self : t) (r : nat) (a : Advance.t) :
  deref self r = Some a -> store self r a = self.
Proof.
  intro H. unfold store. rewrite (list_set_same _ _ _ H). now destruct self.
Qed.

Lemma pay_capital_body_frame : frame pay_capital_body.
Proof.
  intros r self l. unfold pay_capital_body.
  destruct (Qeq_bool (balance self) 0); [simpl; auto|].
  destruct (deref self r) as [a|]; [|simpl; auto].
  destruct (Advance.pay_capital a (balance self)) as [a' rest]. simpl.
  split; [reflexivity|]. split; [apply length_list_set|].
  intros r' Hne. apply (deref_store_ne self r r' a' Hne).
Qed.

Lemma pay_interest_body_frame (payment_date : string) : frame (pay_interest_body payment_date).
Proof.
  intros r self l. unfold pay_interest_body.
  destruct (Qeq_bool (balance self) 0); [simpl; auto|].
  destruct (deref self r) as [a|]; [|simpl; auto].
  destruct (Advance.pay_interest a (balance self) payment_date) as [a' [[rest paid]|e]]; simpl;
    (split; [reflexivity|]; split; [apply length_list_set|]);
    intros r' Hne; apply (deref_store_ne self r r' a' Hne).
Qed.

Lemma remaining_amount_body_frame : frame remaining_amount_body.
Proof.
  intros r self l. unfold remaining_amount_body.
  destruct (deref self r); simpl; auto.
Qed.

Lemma interest_payable_body_frame (to_date : string) : frame (interest_payable_body to_date).
Proof.
  intros r self l. unfold interest_payable_body.
  destruct (deref self r) as [a|]; [|simpl; auto].
  destruct (Advance.interest_payable_balance a to_date); simpl; auto.
Qed.

End BodyFacts.

(** ** Sweeps *)

Module SweepFacts.
Import Calendar CalendarFacts AdvanceFacts Balance GeneratorFacts BodyFacts.

Lemma closed_not_open (self : t) (r : nat) : closed self r -> is_open self r = false.
Proof. intros (a & Ha & Hc). unfold is_open. now rewrite Ha, Hc. Qed.

Lemma not_open_closed (self : t) (r : nat) :
  (r < List.length (advances self))%nat -> is_open self r = false -> closed self r.
Proof.
  intros Hr Ho. destruct (deref_Some self r Hr) as [a Ha]. exists a. split; [assumption|].
  unfold is_open in Ho. rewrite Ha in Ho. now apply negb_false_iff in Ho.
Qed.

Section Skip.
Variable L : Type.
Variable body : nat -> t -> L -> t * L * control.

(* closed advances are passed over *)
Lemma unpaid_advances_loop_skip (skipped : list nat) :
  forall (kept todo : list nat) (length : nat) (self : t) (l : L),
  __unpaid_advances self = kept ++ skipped ++ todo ->
  Forall (closed self) skipped ->
  unpaid_advances_loop body (List.length (skipped ++ todo)) (List.length kept) length self l =
  unpaid_advances_loop body (List.length todo) (List.length (kept ++ skipped)) length self l.
Proof.
  induction skipped as [|r skipped IH]; intros kept todo len self l Hu Hc.
  - now rewrite app_nil_r.
  - inversion Hc as [|? ? (a & Ha & Hca) Hc']; subst.
    simpl. rewrite Hu, nth_error_app2, Nat.sub_diag by lia. simpl.
    rewrite Ha, Hca. simpl.
    replace (S (List.length kept)) with (List.length (kept ++ [r]))
      by (rewrite length_app; simpl; lia).
    rewrite IH; [| rewrite Hu, <- app_assoc; reflexivity | assumption].
    now rewrite <- app_assoc.
Qed.

End Skip.

End SweepFacts.

(** ** Invariants *)

Module InvariantFacts.
Import Calendar CalendarFacts AdvanceFacts Balance GeneratorFacts BodyFacts SweepFacts.

Lemma list_remove_In (x : nat) (l l' : list nat) :
  list_remove x l = Some l' -> forall y, In y l' -> In y l.
Proof.
  revert l'. induction l as [|z l IH]; simpl; intros l' H y Hy; [discriminate|].
  destruct (Nat.eqb z x).
  - injection H as <-. now right.
  - destruct (list_remove x l) as [l''|]; [|discriminate].
    injection H as <-. destruct Hy as [->|Hy]; [now left | right; eauto].
Qed.

Lemma list_remove_keep (x : nat) (l l' : list nat) :
  list_remove x l = Some l' -> forall y, In y l -> y <> x -> In y l'.
Proof.
  revert l'. induction l as [|z l IH]; simpl; intros l' H y Hy Hne; [discriminate|].
  destruct (Nat.eqb z x) eqn:E.
  - injection H as <-. apply Nat.eqb_eq in E. destruct Hy; [congruence | assumption].
  - destruct (list_remove x l) as [l''|]; [|discriminate].
    injection H as <-. destruct Hy as [->|Hy]; [now left | right; eauto].
Qed.

Lemma list_remove_sorted (x : nat) (l l' : list nat) :
  list_remove x l = Some l' -> StronglySorted lt l -> StronglySorted lt l'.
Proof.
  revert l'. induction l as [|z l IH]; simpl; intros l' H S; [discriminate|].
  inversion S as [|? ? S1 S2]; subst.
  destruct (Nat.eqb z x).
  - now injection H as <-.
  - destruct (list_remove x l) as [l''|] eqn:E; [|discriminate].
    injection H as <-. constructor; [now apply IH|].
    rewrite Forall_forall in *. intros y Hy. apply S2. eapply list_remove_In; eauto.
Qed.

Lemma Forall_list_set {A : Type} (P : A -> Prop) (l : list A) (i : nat) (x : A) :
  Forall P l -> P x -> Forall P (list_set l i x).
Proof.
  intros H Hx. revert i. induction H as [|y l Hy H IH]; intros [|i]; simpl; auto.
Qed.

Lemma sorted_NoDup (l : list nat) : StronglySorted lt l -> NoDup l.
Proof.
  induction 1 as [|x l S IH F]; constructor; [|assumption].
  intro Hi. rewrite Forall_forall in F. specialize (F x Hi). lia.
Qed.

Section Rule.
Variable L : Type.
Variable body : nat -> t -> L -> t * L * control.
Variable I : t -> L -> Prop.

Hypothesis body_inv : forall r self l,
  I self l -> In r (__unpaid_advances self) -> is_open self r = true ->
  I (fst (fst (body r self l))) (snd (fst (body r self l))).

Hypothesis remove_inv : forall r self l us,
  I self l -> closed self r -> list_remove r (__unpaid_advances self) = Some us ->
  I (set___unpaid_advances self us) l.

(** What the body and the removal of a closed advance preserve, the loop
    preserves, however it ends. *)
Lemma unpaid_advances_loop_inv (n : nat) :
  forall (i length : nat) (self : t) (l : L),
  I self l ->
  I (fst (fst (unpaid_advances_loop body n i length self l)))
    (snd (fst (unpaid_advances_loop body n i length self l))).
Proof.
  induction n as [|n IH]; intros i len self l HI; [exact HI|].
  simpl.
  destruct (nth_error (__unpaid_advances self) i) as [r|] eqn:En; [|exact HI].
  destruct (deref self r) as [a|] eqn:Ea; [|exact HI].
  destruct (negb (Advance.is_close a)) eqn:Ec; [|now apply IH].
  assert (Ho : is_open self r = true) by (unfold is_open; now rewrite Ea).
  pose proof (body_inv r self l HI (nth_error_In _ _ En) Ho) as HB.
  destruct (body r self l) as [[s1 l1] c]. simpl in HB.
  destruct c; try exact HB.
  destruct (deref s1 r) as [a1|] eqn:Ea1; [|exact HB].
  destruct (Advance.is_close a1) eqn:Ec1; [|now apply IH].
  destruct (list_remove r (__unpaid_advances s1)) as [us|] eqn:Er; [|exact HB].
  apply IH. apply (remove_inv r s1 l1 us HB); [|assumption].
  exists a1. now split.
Qed.

End Rule.

Lemma inv_remove (r : nat) (self : t) (us : list nat) :
  inv self -> closed self r -> list_remove r (__unpaid_advances self) = Some us ->
  inv (set___unpaid_advances self us).
Proof.
  intros ((S & F) & N & T & V) Hc Hr.
  split; [split|split; [|split]]; simpl.
  - eapply list_remove_sorted; eauto.
  - rewrite Forall_forall in *. intros y Hy. apply F. eapply list_remove_In; eauto.
  - exact N.
  - intros r' Ho. rewrite is_open_set_unpaid in Ho.
    eapply list_remove_keep; eauto.
    intro. subst. rewrite (closed_not_open _ _ Hc) in Ho. discriminate.
  - exact V.
Qed.


(* what remains after [pay_capital] is not negative, whatever the amount *)
Lemma pay_capital_remaining_nonneg (a : Advance.t) (amount : Q) :
  0 <= Advance.remaining_amount (fst (Advance.pay_capital a amount)).
Proof.
  unfold Advance.pay_capital. cbv zeta. simpl Advance.remaining_amount.
  destruct (Qlt_bool (Advance.remaining_amount a - amount) 0) eqn:E; simpl.
  - apply Qle_refl.
  - now apply Qlt_bool_false in E.
Qed.

Lemma pay_capital_nonneg (a : Advance.t) (amount : Q) :
  0 <= Advance.remaining_amount a -> 0 <= amount ->
  0 <= Advance.remaining_amount (fst (Advance.pay_capital a amount)) /\
  0 <= snd (Advance.pay_capital a amount).
Proof.
  intros Hr Ha. split; [apply pay_capital_remaining_nonneg|].
  unfold Advance.pay_capital. cbv zeta. simpl Advance.remaining_amount.
  destruct (Qlt_bool (Advance.remaining_amount a - amount) 0) eqn:E; simpl.
  - apply Qlt_bool_iff in E.
    setoid_replace 0 with (- 0) by ring. apply Qopp_le_compat. now apply Qlt_le_weak.
  - apply Qle_refl.
Qed.

Lemma pay_capital_valid (a : Advance.t) (amount : Q) :
  Advance.valid a -> Advance.valid (fst (Advance.pay_capital a amount)).
Proof.
  unfold Advance.valid.
  destruct (pay_capital_fields a amount) as (E1 & _ & _ & E2). cbv zeta in E1, E2.
  now rewrite E1, E2.
Qed.

(** What [Advance.pay_interest] does to an advance, whatever the branch; the
    rest is not negative when the division is exact. *)
Lemma pay_interest_inv (a : Advance.t) (amount : Q) (payment_date : string) :
  Advance.valid a ->
  let a' := fst (Advance.pay_interest a amount payment_date) in
  Advance.valid a' /\
  Advance.remaining_amount a' = Advance.remaining_amount a /\
  Advance.daily_interest_rate a' = Advance.daily_interest_rate a /\
  match snd (Advance.pay_interest a amount payment_date) with
  | Ok (rest, _) =>
      0 <= amount -> is_int amount && is_int (Advance.interest_by_day a) = false ->
      0 <= rest
  | Err _ => a' = a
  end.
Proof.
  intros V. unfold Advance.pay_interest.
  destruct (Advance.interest_payable_balance a payment_date) as [interest|e] eqn:Ei;
    [|simpl; auto].
  destruct (interest_payable_balance_inv _ _ _ Ei) as (d & Hd & ->).
  destruct (Qle_bool _ amount) eqn:Ele.
  - rewrite Hd. simpl. split; [|split; [reflexivity|split; [reflexivity|]]].
    + split; [apply V|]. simpl. eapply fromisoformat_in_range; eauto.
    + intros _ _. apply Qle_bool_iff in Ele.
      unfold Qminus. rewrite <- (Qplus_opp_r (inject_Z (Advance.days_between
        (Advance.last_interest_payment_date a) d) * Advance.interest_by_day a)).
      now apply Qplus_le_l.
  - apply Qle_bool_false in Ele. cbv zeta.
    destruct (true_div amount (Advance.interest_by_day a)) as [quotient|e] eqn:Eq;
      [|simpl; auto].
    destruct (bind _ _) as [d'|e] eqn:Eb; [|simpl; auto].
    simpl. split; [|split; [reflexivity|split; [reflexivity|]]].
    + split; [apply V|]. simpl. unfold bind in Eb.
      destruct (timedelta _) as [k|]; [|discriminate].
      unfold date_add in Eb. cbv zeta in Eb.
      destruct (in_range _) eqn:Er; [|discriminate]. now injection Eb as <-.
    + intros Ha Hx. unfold true_div in Eq.
      destruct (Qeq_bool (Advance.interest_by_day a) 0); [discriminate|].
      rewrite Hx in Eq. injection Eq as <-.
      apply days_covered_rest.
      apply Qmult_pos_r with (k := Advance.days_between (Advance.last_interest_payment_date a) d).
      * apply days_between_nonneg.
      * eapply Qle_lt_trans; eauto.
Qed.

Lemma tracked_store (self : t) (r : nat) (a' : Advance.t) :
  tracked self -> In r (__unpaid_advances self) ->
  forall r', is_open (store self r a') r' = true -> In r' (__unpaid_advances self).
Proof.
  intros T Hin r' Ho. destruct (Nat.eq_dec r' r) as [->|Hne]; [assumption|].
  apply T. rewrite <- Ho. symmetry. apply is_open_deref.
  apply (deref_store_ne self r r' a' Hne).
Qed.

Lemma pay_capital_body_inv (r : nat) (self : t) (l : unit) :
  inv self -> In r (__unpaid_advances self) ->
  inv (fst (fst (pay_capital_body r self l))).
Proof.
  intros I Hin. pose proof I as ((S & F) & Nr & T & V). unfold nonneg in Nr. unfold pay_capital_body.
  destruct (Qeq_bool (balance self) 0); [exact I|].
  destruct (deref self r) as [a|] eqn:Ea; [|exact I].
  assert (Hva : Advance.valid a).
  { rewrite Forall_forall in V. apply V. eapply nth_error_In. exact Ea. }
  pose proof (pay_capital_remaining_nonneg a (balance self)) as P1.
  pose proof (pay_capital_valid a (balance self) Hva) as P3.
  pose proof (tracked_store self r (fst (Advance.pay_capital a (balance self))) T Hin) as Ho.
  destruct (Advance.pay_capital a (balance self)) as [a' rest]. simpl in *.
  split; [split|split; [|split]]; unfold nonneg; simpl.
  - exact S.
  - now rewrite length_list_set.
  - now apply Forall_list_set.
  - exact Ho.
  - now apply Forall_list_set.
Qed.

Lemma pay_interest_body_inv (payment_date : string) (r : nat) (self : t) (l : unit) :
  inv self -> In r (__unpaid_advances self) ->
  inv (fst (fst (pay_interest_body payment_date r self l))).
Proof.
  intros I Hin. pose proof I as ((S & F) & Nr & T & V). unfold nonneg in Nr. unfold pay_interest_body.
  destruct (Qeq_bool (balance self) 0); [exact I|].
  destruct (deref self r) as [a|] eqn:Ea; [|exact I].
  assert (Hra : 0 <= Advance.remaining_amount a).
  { rewrite Forall_forall in Nr. apply Nr. eapply nth_error_In. exact Ea. }
  assert (Hva : Advance.valid a).
  { rewrite Forall_forall in V. apply V. eapply nth_error_In. exact Ea. }
  pose proof (pay_interest_inv a (balance self) payment_date Hva) as (P1 & P2 & _ & _).
  cbv zeta in P1, P2.
  pose proof (tracked_store self r (fst (Advance.pay_interest a (balance self) payment_date))
                T Hin) as Ho.
  assert (I' : inv (store self r (fst (Advance.pay_interest a (balance self) payment_date)))).
  { split; [split|split; [|split]]; unfold nonneg; simpl.
    - exact S.
    - now rewrite length_list_set.
    - apply Forall_list_set; [assumption | now rewrite P2].
    - exact Ho.
    - now apply Forall_list_set. }
  destruct (Advance.pay_interest a (balance self) payment_date) as [a' [[rest paid]|e]];
    simpl in *; exact I'.
Qed.




End InvariantFacts.

(** ** The operations keep the invariant *)

Module ReachFacts.
Import Calendar CalendarFacts AdvanceFacts Balance GeneratorFacts BodyFacts SweepFacts
  InvariantFacts.

Lemma unpaid_advances_inv {L : Type} (body : nat -> t -> L -> t * L * control) (self : t) (l : L) :
  (forall r self l, inv self -> In r (__unpaid_advances self) ->
                    inv (fst (fst (body r self l)))) ->
  inv self -> inv (fst (fst (unpaid_advances body self l))).
Proof.
  intros Hb Hi. unfold unpaid_advances. cbv zeta.
  apply (unpaid_advances_loop_inv L body (fun s _ => inv s)); [| |assumption].
  - intros r s l0 Hs Hin _. now apply Hb.
  - intros r s _ us Hs Hc Hr. eapply inv_remove; eauto.
Qed.

Lemma __pay_interest_inv (self : t) (payment_date : string) :
  inv self -> inv (fst (__pay_interest self payment_date)).
Proof.
  intro Hi. unfold __pay_interest.
  pose proof (unpaid_advances_inv (pay_interest_body payment_date) self tt
                (pay_interest_body_inv payment_date) Hi) as H.
  destruct (unpaid_advances _ self tt) as [[s l] x]. exact H.
Qed.

Lemma __pay_capital_inv (self : t) :
  inv self -> inv (fst (__pay_capital self)).
Proof.
  intro Hi. unfold __pay_capital.
  pose proof (unpaid_advances_inv pay_capital_body self tt pay_capital_body_inv Hi) as H.
  destruct (unpaid_advances _ self tt) as [[s l] x]. exact H.
Qed.




Lemma init_inv (daily_interest_rate balance : Q) :
  inv (init daily_interest_rate balance).
Proof.
  unfold init. split; [split|split; [|split]]; unfold nonneg; simpl; try constructor.
  intros r Ho. unfold is_open, deref in Ho. simpl in Ho.
  destruct r; discriminate.
Qed.

Lemma sorted_app_last (l : list nat) (n : nat) :
  StronglySorted lt l -> Forall (fun x => (x < n)%nat) l -> StronglySorted lt (l ++ [n]).
Proof.
  induction 1 as [|x l S IH F]; intro B; simpl.
  - repeat constructor.
  - inversion B as [|? ? Bx Bl]; subst. constructor; [now apply IH|].
    apply Forall_app. split; [assumption|]. now constructor.
Qed.

Lemma add_payment_start_inv (self : t) (payment_date : string) (amount : Q) :
  inv self ->
  inv (set_balance (set_payments self (payments self ++ [Payment.make payment_date amount]))
         (balance self + amount)).
Proof.
  intros (W & Nr & T & V). split; [exact W|]. split; [exact Nr|]. split; [exact T | exact V].
Qed.

Lemma add_payment_inv (self : t) (payment_date : string) (amount : Q) :
  inv self -> inv (fst (add_payment self payment_date amount)).
Proof.
  intros I. unfold add_payment. cbv zeta.
  pose proof (add_payment_start_inv self payment_date amount I) as H0.
  set (s0 := set_balance (set_payments self _) _) in *.
  pose proof (__pay_interest_inv s0 payment_date H0) as H1.
  destruct (__pay_interest s0 payment_date) as [s1 [[]|e]]; simpl in H1.
  - now apply __pay_capital_inv.
  - exact H1.
Qed.


Lemma add_advance_inv (self : t) (advance_date : string) (amount : Q)
    (daily_interest_rate : option Q) :
  inv self ->
  inv (fst (add_advance self advance_date amount daily_interest_rate)).
Proof.
  intros I. pose proof I as ((S & F) & Nr & T & V). unfold nonneg in Nr.
  unfold add_advance. cbv zeta.
  set (rate := match daily_interest_rate with None => _ | Some r => r end).
  set (p := if Qlt_bool amount (balance self) then _ else _).
  assert (Hp : exists bal rem, p = (set_balance self bal, rem) /\ 0 <= rem).
  { subst p. destruct (Qlt_bool amount (balance self)) eqn:E.
    - exists (balance self - amount), 0. split; [reflexivity | apply Qle_refl].
    - exists 0, (amount - balance self). split; [reflexivity|].
      apply Qlt_bool_false in E.
      unfold Qminus. rewrite <- (Qplus_opp_r (balance self)). now apply Qplus_le_l. }
  destruct Hp as (bal & rem & -> & Hrem).
  unfold Advance.init.
  destruct (fromisoformat advance_date) as [d|] eqn:Ed; simpl.
  - pose proof (fromisoformat_in_range _ _ Ed) as Rd.
    split; [split|split; [|split]]; unfold nonneg; simpl.
    + apply sorted_app_last; assumption.
    + apply Forall_app. split.
      * eapply Forall_impl; [|exact F]. intros r Hr. simpl in Hr.
        rewrite length_app. simpl. lia.
      * constructor; [|constructor]. rewrite length_app. simpl. lia.
    + apply Forall_app. split; [assumption|]. now repeat constructor.
    + intros r Ho. apply in_or_app.
      destruct (Nat.eq_dec r (List.length (advances self))) as [->|Hne]; [right; now left|].
      left. apply T. unfold is_open, deref in *. simpl in Ho.
      destruct (Nat.lt_ge_cases r (List.length (advances self))) as [Hlt|Hge].
      * now rewrite nth_error_app1 in Ho.
      * rewrite nth_error_app2 in Ho by assumption.
        destruct (r - List.length (advances self))%nat as [|[|k]] eqn:Ek; simpl in Ho;
          try discriminate. lia.
    + apply Forall_app. split; [assumption|]. repeat constructor; assumption.
  - split; [exact (conj S F)|]. split; [exact Nr|]. split; [exact T | exact V].
Qed.


Lemma query_inv {L : Type} (body : nat -> t -> L -> t * L * control) (self : t) (l : L) :
  (forall r self l, fst (fst (body r self l)) = self) ->
  inv self -> inv (fst (fst (unpaid_advances body self l))).
Proof.
  intros Hb Hi. apply unpaid_advances_inv; [|assumption].
  intros r s l0 Hs _. now rewrite Hb.
Qed.

Lemma remaining_amount_body_state (r : nat) (self : t) (l : list Q) :
  fst (fst (remaining_amount_body r self l)) = self.
Proof. unfold remaining_amount_body. now destruct (deref self r). Qed.

Lemma interest_payable_body_state (to_date : string) (r : nat) (self : t) (l : list Q) :
  fst (fst (interest_payable_body to_date r self l)) = self.
Proof.
  unfold interest_payable_body. destruct (deref self r) as [a|]; [|reflexivity].
  now destruct (Advance.interest_payable_balance a to_date).
Qed.

(** Every reachable ledger satisfies the invariant. *)
Lemma reachable_inv (self : t) : reachable self -> inv self.
Proof.
  induction 1 as [rate bal Hb | self s amount rate _ IH Ha | self s amount _ IH Ha
                  | self _ IH | self s _ IH].
  - apply init_inv.
  - now apply add_advance_inv.
  - now apply add_payment_inv.
  - unfold advances_balance.
    pose proof (query_inv remaining_amount_body self [] remaining_amount_body_state IH) as H.
    destruct (unpaid_advances remaining_amount_body self []) as [[s l] x]. exact H.
  - unfold interest_payable_balance.
    destruct (fromisoformat s) as [d|]; [|exact IH].
    destruct (bind _ _) as [d'|e]; [|exact IH].
    cbv zeta.
    pose proof (query_inv (interest_payable_body (isoformat d')) self []
                  (interest_payable_body_state (isoformat d')) IH) as H.
    destruct (unpaid_advances _ self []) as [[s1 l] x]. exact H.
Qed.

End ReachFacts.

(** ** The capital sweep leaves no cash next to an open advance *)

Module CapitalFacts.
Import Calendar CalendarFacts AdvanceFacts Balance GeneratorFacts BodyFacts SweepFacts
  InvariantFacts ReachFacts.

Lemma pay_capital_open_rest (a : Advance.t) (amount : Q) :
  Advance.is_close (fst (Advance.pay_capital a amount)) = false ->
  snd (Advance.pay_capital a amount) = 0.
Proof.
  unfold Advance.pay_capital. cbv zeta.
  destruct (Qlt_bool _ 0); simpl; [discriminate | reflexivity].
Qed.

Lemma closed_frame (self self' : t) (r : nat) :
  deref self' r = deref self r -> closed self r -> closed self' r.
Proof. intros E (a & Ha & Hc). exists a. split; congruence. Qed.

Lemma pay_capital_loop_post (todo : list nat) :
  forall (kept : list nat) (self : t) (length : nat) (self' : t) (x : exit),
  __unpaid_advances self = kept ++ todo ->
  NoDup (kept ++ todo) ->
  Forall (fun r => (r < List.length (advances self))%nat) todo ->
  balance self == 0 \/ Forall (closed self) kept ->
  unpaid_advances_loop pay_capital_body (List.length todo) (List.length kept) length self tt
    = (self', tt, x) ->
  (x = Exhausted \/ x = Broke) /\
  (balance self' == 0 \/ Forall (closed self') (__unpaid_advances self')).
Proof.
  induction todo as [|r todo IH]; intros kept self len self' x Hu Hnd Hr HJ.
  - simpl. intro H. injection H as <- <-. rewrite app_nil_r in Hu. rewrite Hu. auto.
  - assert (Hrk : ~ In r kept).
    { intro Hi. apply NoDup_remove_2 in Hnd. apply Hnd, in_or_app. now left. }
    assert (Hnd1 : NoDup (kept ++ todo)) by now apply NoDup_remove_1 in Hnd.
    assert (Hnd2 : NoDup ((kept ++ [r]) ++ todo)) by now rewrite <- app_assoc.
    inversion Hr as [|? ? Hr1 Hr2]; subst.
    change (List.length (r :: todo)) with (S (List.length todo)).
    rewrite (unpaid_advances_loop_cons _ pay_capital_body
               (frame_unpaid pay_capital_body pay_capital_body_frame)
               kept todo r len self tt Hu Hrk).
    destruct (deref_Some self r Hr1) as [a Ha]. rewrite Ha.
    destruct (negb (Advance.is_close a)) eqn:Ec.
    + unfold pay_capital_body at 1.
      destruct (Qeq_bool (balance self) 0) eqn:Eb.
      * intro H. injection H as <- <-. apply Qeq_bool_iff in Eb. auto.
      * rewrite Ha.
        pose proof (pay_capital_open_rest a (balance self)) as Hrest.
        destruct (Advance.pay_capital a (balance self)) as [a' rest]. simpl in Hrest.
        assert (Hd : deref (set_balance (store self r a') rest) r = Some a')
          by (apply (deref_store_eq self r a' Hr1)).
        rewrite Hd.
        assert (Hkept : Forall (closed (set_balance (store self r a') rest)) kept).
        { destruct HJ as [HJ|HJ].
          - apply Qeq_bool_iff in HJ. congruence.
          - rewrite Forall_forall in *. intros r' Hi.
            apply (closed_frame self); [|now apply HJ].
            apply (deref_store_ne self r r' a'). intro. subst. contradiction. }
        destruct (Advance.is_close a') eqn:Ec'.
        -- apply IH; try assumption.
           ++ reflexivity.
           ++ simpl. now rewrite length_list_set.
           ++ right. exact Hkept.
        -- apply IH; try assumption.
           ++ simpl. now rewrite Hu, <- app_assoc.
           ++ simpl. now rewrite length_list_set.
           ++ left. simpl. rewrite Hrest by reflexivity. reflexivity.
    + apply IH; try assumption.
      * now rewrite Hu, <- app_assoc.
      * destruct HJ as [HJ|HJ]; [now left | right].
        apply Forall_app. split; [assumption|]. constructor; [|constructor].
        exists a. split; [assumption|]. now apply negb_false_iff in Ec.
Qed.

Lemma tracked_all_closed (self : t) :
  tracked self -> Forall (closed self) (__unpaid_advances self) ->
  Forall (fun a => Advance.remaining_amount a == 0) (advances self).
Proof.
  intros T C. apply Forall_forall. intros a Hin.
  destruct (In_nth_error _ _ Hin) as [r Hr].
  destruct (Advance.is_close a) eqn:Ec; [now apply Qeq_bool_iff in Ec|].
  exfalso.
  assert (Ho : is_open self r = true).
  { unfold is_open, deref. now rewrite Hr, Ec. }
  apply T in Ho. rewrite Forall_forall in C. apply C in Ho as (a' & Ha' & Hc').
  unfold deref in Ha'. congruence.
Qed.

Lemma wf_NoDup (self : t) : wf self -> NoDup (__unpaid_advances self).
Proof. intros [S _]. now apply sorted_NoDup. Qed.

Lemma __pay_capital_post (self self' : t) (res : result unit) :
  inv self -> __pay_capital self = (self', res) ->
  res = Ok tt /\
  (balance self' == 0 \/ Forall (fun a => Advance.remaining_amount a == 0) (advances self')).
Proof.
  intros Hi H.
  pose proof (__pay_capital_inv self Hi) as Hi'. rewrite H in Hi'. simpl in Hi'.
  unfold __pay_capital, unpaid_advances in H. cbv zeta in H.
  destruct (unpaid_advances_loop _ _ _ _ self tt) as [[s []] x] eqn:E.
  injection H as <- <-.
  rewrite Nat.sub_0_r in E.
  destruct Hi as (W & _).
  apply (pay_capital_loop_post (__unpaid_advances self) [] self) in E;
    [| reflexivity | now apply wf_NoDup | apply W | right; constructor].
  destruct E as [Hx HJ]. split.
  - destruct Hx; subst; reflexivity.
  - destruct HJ as [HJ|HJ]; [now left | right].
    apply tracked_all_closed; [apply Hi' | assumption].
Qed.

End CapitalFacts.

(** ** Reading through the generator *)

Module QueryFacts.
Import Calendar CalendarFacts AdvanceFacts Balance GeneratorFacts BodyFacts SweepFacts
  InvariantFacts ReachFacts.

Section Reader.
Variable f : Advance.t -> Q.
Variable body : nat -> t -> list Q -> t * list Q * control.
Hypothesis body_frame : frame body.
Hypothesis body_reads : forall r self l a,
  deref self r = Some a -> body r self l = (self, l ++ [f a], Continue).

(** A list comprehension over the generator collects the value of every open
    advance of the working list, in order, and changes nothing. *)
Lemma unpaid_advances_loop_read (todo : list nat) :
  forall (kept : list nat) (self : t) (l : list Q) (length : nat),
  __unpaid_advances self = kept ++ todo ->
  NoDup (kept ++ todo) ->
  Forall (fun r => (r < List.length (advances self))%nat) todo ->
  unpaid_advances_loop body (List.length todo) (List.length kept) length self l
    = (self, l ++ map f (opens self todo), Exhausted).
Proof.
  induction todo as [|r todo IH]; intros kept self l len Hu Hnd Hr.
  - simpl. now rewrite app_nil_r.
  - assert (Hrk : ~ In r kept).
    { intro Hi. apply NoDup_remove_2 in Hnd. apply Hnd, in_or_app. now left. }
    assert (Hnd2 : NoDup ((kept ++ [r]) ++ todo)) by now rewrite <- app_assoc.
    inversion Hr as [|? ? Hr1 Hr2]; subst.
    change (List.length (r :: todo)) with (S (List.length todo)).
    rewrite (unpaid_advances_loop_cons _ body (frame_unpaid body body_frame)
               kept todo r len self l Hu Hrk).
    destruct (deref_Some self r Hr1) as [a Ha]. rewrite Ha.
    unfold opens. simpl. rewrite Ha. fold (opens self todo).
    destruct (Advance.is_close a) eqn:Ec; simpl.
    + apply IH; try assumption. now rewrite Hu, <- app_assoc.
    + rewrite (body_reads r self l a Ha), Ha, Ec.
      rewrite IH; try assumption; [| now rewrite Hu, <- app_assoc].
      now rewrite <- app_assoc.
Qed.

Lemma unpaid_advances_read (self : t) :
  wf self ->
  unpaid_advances body self [] = (self, map f (open_advances self), Exhausted).
Proof.
  intros [S F]. unfold unpaid_advances. cbv zeta. rewrite Nat.sub_0_r.
  apply (unpaid_advances_loop_read (__unpaid_advances self) [] self []);
    [reflexivity | now apply sorted_NoDup | assumption].
Qed.

End Reader.

Lemma interest_payable_balance_next_day (self : t) (to_date : string) (d : date) :
  wf self ->
  fromisoformat to_date = Some d ->
  (d < MAXORD)%Z ->
  fromisoformat (isoformat (d + 1)%Z) = Some (d + 1)%Z /\
  interest_payable_balance self to_date =
    (self, Ok (sum (map (fun a => Advance.interest_payable_at a (d + 1)%Z) (open_advances self)))).
Proof.
  intros W Hd Hmax.
  pose proof (fromisoformat_in_range _ _ Hd) as R. apply in_range_iff in R.
  unfold MAXORD in Hmax.
  assert (R' : in_range (d + 1)%Z = true) by (apply in_range_iff; lia).
  pose proof (fromisoformat_isoformat (d + 1)%Z R') as Hrt.
  split; [assumption|].
  unfold interest_payable_balance. rewrite Hd.
  rewrite timedelta_ok by lia. cbv beta iota delta [bind].
  rewrite date_add_ok by lia.
  cbv zeta.
  rewrite (unpaid_advances_read (fun a => Advance.interest_payable_at a (d + 1)%Z)
             (interest_payable_body (isoformat (d + 1)%Z))
             (interest_payable_body_frame _)); [reflexivity | | assumption].
  intros r s l a Ha. unfold interest_payable_body. rewrite Ha.
  now rewrite (interest_payable_balance_date a _ _ Hrt).
Qed.

Lemma advances_balance_spec (self : t) :
  wf self ->
  advances_balance self = (self, Ok (sum (map Advance.remaining_amount (open_advances self)))).
Proof.
  intro W. unfold advances_balance.
  rewrite (unpaid_advances_read Advance.remaining_amount remaining_amount_body
             remaining_amount_body_frame); [reflexivity | | assumption].
  intros r s l a Ha. unfold remaining_amount_body. now rewrite Ha.
Qed.

End QueryFacts.

(** ** The working list holds every open advance *)

Module TrackedFacts.
Import Calendar CalendarFacts AdvanceFacts Balance GeneratorFacts BodyFacts SweepFacts
  InvariantFacts ReachFacts.

Lemma opens_cons (self : t) (r : nat) (rs : list nat) :
  opens self (r :: rs) = opens self [r] ++ opens self rs.
Proof. unfold opens. simpl. now rewrite app_nil_r. Qed.

Lemma opens_not_open (self : t) (r : nat) : is_open self r = false -> opens self [r] = [].
Proof.
  unfold is_open, opens. simpl. destruct (deref self r) as [a|]; [|reflexivity].
  intro H. apply negb_false_iff in H. now rewrite H.
Qed.

Lemma opens_seq (self : t) (len : nat) :
  forall (start : nat) (us : list nat),
  StronglySorted lt us ->
  Forall (fun x => (start <= x < start + len)%nat) us ->
  (forall r, (start <= r < start + len)%nat -> ~ In r us -> is_open self r = false) ->
  opens self us = opens self (seq start len).
Proof.
  induction len as [|len IH]; intros start us S F H.
  - destruct us as [|x us]; [reflexivity|].
    inversion F; subst. lia.
  - simpl seq. rewrite (opens_cons self start).
    destruct us as [|x us].
    + rewrite opens_not_open by (apply H; [lia | intros []]).
      apply IH; [constructor | constructor |].
      intros r Hr _. apply H; [lia | intros []].
    + inversion S as [|? ? S1 S2]; subst. inversion F as [|? ? F1 F2]; subst.
      rewrite Forall_forall in S2, F2.
      destruct (Nat.eq_dec x start) as [->|Hne].
      * rewrite (opens_cons self start us). f_equal.
        apply IH; [assumption | |].
        -- apply Forall_forall. intros y Hy. specialize (S2 y Hy). specialize (F2 y Hy). lia.
        -- intros r Hr Hn. apply H; [lia|]. intros [->|Hi]; [lia | contradiction].
      * rewrite opens_not_open.
        2:{ apply H; [lia|]. intros [->|Hi]; [lia|]. specialize (S2 start Hi). lia. }
        apply IH; [assumption | |].
        -- constructor; [lia|]. apply Forall_forall. intros y Hy.
           specialize (S2 y Hy). specialize (F2 y Hy). lia.
        -- intros r Hr Hn. apply H; [lia | assumption].
Qed.

Lemma opens_all (l : list Advance.t) :
  forall (pre : list Advance.t) (self : t),
  advances self = pre ++ l ->
  opens self (seq (List.length pre) (List.length l))
    = filter (fun a => negb (Advance.is_close a)) l.
Proof.
  induction l as [|a l IH]; intros pre self E; [reflexivity|].
  simpl seq. rewrite opens_cons. unfold opens at 1. simpl flat_map.
  unfold deref. rewrite E, nth_error_app2, Nat.sub_diag by lia. simpl nth_error.
  rewrite app_nil_r.
  replace (S (List.length pre)) with (List.length (pre ++ [a]))
    by (rewrite length_app; simpl; lia).
  rewrite (IH (pre ++ [a]) self) by (rewrite E, <- app_assoc; reflexivity).
  simpl. now destruct (Advance.is_close a).
Qed.

(** In a ledger that satisfies the invariant, the open advances of the working
    list are the open advances of the ledger. *)
Lemma open_advances_all (self : t) :
  inv self ->
  open_advances self = filter (fun a => negb (Advance.is_close a)) (advances self).
Proof.
  intros ((S & F) & _ & T & _). unfold open_advances.
  rewrite (opens_seq self (List.length (advances self)) O (__unpaid_advances self)).
  - apply (opens_all (advances self) [] self). reflexivity.
  - assumption.
  - eapply Forall_impl; [|exact F]. simpl. intros. lia.
  - intros r _ Hn. destruct (is_open self r) eqn:E; [|reflexivity].
    apply T in E. contradiction.
Qed.

End TrackedFacts.

(** ** Sweeps that meet one open advance *)

Module PaymentFacts.
Import Calendar CalendarFacts AdvanceFacts Balance GeneratorFacts BodyFacts SweepFacts
  InvariantFacts ReachFacts.

Lemma first_open (self : t) (us : list nat) :
  Forall (fun r => (r < List.length (advances self))%nat) us ->
  Forall (closed self) us \/
  exists skipped r rest,
    us = skipped ++ r :: rest /\ Forall (closed self) skipped /\ is_open self r = true.
Proof.
  induction 1 as [|r us Hr F IH]; [left; constructor|].
  destruct (is_open self r) eqn:Eo.
  - right. exists [], r, us. repeat split; [constructor | assumption].
  - pose proof (not_open_closed self r Hr Eo) as Hc.
    destruct IH as [IH | (skipped & r' & rest & -> & Hs & Ho)].
    + left. now constructor.
    + right. exists (r :: skipped), r', rest. repeat split; [now constructor | assumption].
Qed.

Section OneOpen.
Variable L : Type.
Variable body : nat -> t -> L -> t * L * control.

Lemma unpaid_advances_all_closed (self : t) (l : L) :
  Forall (closed self) (__unpaid_advances self) ->
  unpaid_advances body self l = (self, l, Exhausted).
Proof.
  intro H. unfold unpaid_advances. cbv zeta. rewrite Nat.sub_0_r.
  pose proof (unpaid_advances_loop_skip L body (__unpaid_advances self) [] []
                (List.length (__unpaid_advances self)) self l) as E.
  rewrite app_nil_r in E. simpl in E. rewrite E; [reflexivity | reflexivity | assumption].
Qed.

(* the body stops the loop at the first open advance *)
Lemma unpaid_advances_stop (self : t) (l : L) (skipped rest : list nat) (r : nat)
    (self' : t) (l' : L) (c : control) :
  __unpaid_advances self = skipped ++ r :: rest ->
  Forall (closed self) skipped ->
  is_open self r = true ->
  body r self l = (self', l', c) ->
  c <> Continue ->
  unpaid_advances body self l = (self', l', exit_of_control c).
Proof.
  intros Hu Hs Ho Hb Hc. unfold unpaid_advances. cbv zeta. rewrite Nat.sub_0_r.
  rewrite Hu at 1.
  rewrite (unpaid_advances_loop_skip L body skipped [] (r :: rest) _ self l Hu Hs).
  simpl. rewrite Hu, nth_error_app2, Nat.sub_diag by lia. simpl.
  unfold is_open in Ho. destruct (deref self r) as [a|]; [|discriminate].
  rewrite Ho, Hb. destruct c; [contradiction | reflexivity | reflexivity].
Qed.

Hypothesis body_unpaid : forall r self l,
  __unpaid_advances (fst (fst (body r self l))) = __unpaid_advances self.


End OneOpen.

Lemma pay_interest_body_invalid (payment_date : string) (r : nat) (self : t) (a : Advance.t) :
  fromisoformat payment_date = None ->
  deref self r = Some a ->
  pay_interest_body payment_date r self tt =
    (self, tt, if Qeq_bool (balance self) 0 then Break else Raise ValueError).
Proof.
  intros Hd Ha. unfold pay_interest_body.
  destruct (Qeq_bool (balance self) 0); [reflexivity|].
  rewrite Ha. unfold Advance.pay_interest, Advance.interest_payable_balance,
    Advance.__days_from_last_interest_payment. rewrite Hd. simpl.
  now rewrite (store_same self r a Ha).
Qed.

Lemma pay_capital_body_zero (r : nat) (self : t) :
  balance self == 0 -> pay_capital_body r self tt = (self, tt, Break).
Proof.
  intro H. unfold pay_capital_body. apply Qeq_bool_iff in H. now rewrite H.
Qed.

(** With a payment date that is no date, [add_payment] records the payment
    and adds it to the cash buffer, and that is all it does; it raises when
    there is cash to sweep and an open advance to sweep it over. *)
Lemma add_payment_invalid (self : t) (payment_date : string) (amount : Q) :
  wf self ->
  fromisoformat payment_date = None ->
  add_payment self payment_date amount =
    (set_balance (set_payments self (payments self ++ [Payment.make payment_date amount]))
       (balance self + amount),
     if negb (Qeq_bool (balance self + amount) 0)
        && existsb (is_open self) (__unpaid_advances self)
     then Err ValueError else Ok tt).
Proof.
  intros [S F] Hd. unfold add_payment. cbv zeta.
  set (s0 := set_balance (set_payments self _) _).
  assert (Hcl : forall r, closed self r -> closed s0 r) by (intros r H; exact H).
  destruct (first_open self (__unpaid_advances self) F)
    as [Hall | (skipped & r & rest & Hu & Hs & Ho)].
  - assert (Hall0 : Forall (closed s0) (__unpaid_advances s0)) by exact Hall.
    unfold __pay_interest, __pay_capital.
    rewrite (unpaid_advances_all_closed unit _ s0 tt Hall0). simpl.
    rewrite (unpaid_advances_all_closed unit _ s0 tt Hall0). simpl.
    replace (existsb (is_open self) (__unpaid_advances self)) with false;
      [now rewrite andb_false_r|].
    symmetry. apply not_true_is_false. intro E. apply existsb_exists in E as (r & Hi & Ho).
    rewrite Forall_forall in Hall. apply Hall, closed_not_open in Hi. congruence.
  - assert (Hu0 : __unpaid_advances s0 = skipped ++ r :: rest) by exact Hu.
    assert (Hs0 : Forall (closed s0) skipped) by exact Hs.
    assert (Ho0 : is_open s0 r = true) by exact Ho.
    assert (Ha : exists a, deref s0 r = Some a).
    { unfold is_open in Ho0. destruct (deref s0 r) as [a|]; [eauto | discriminate]. }
    destruct Ha as [a Ha].
    replace (existsb (is_open self) (__unpaid_advances self)) with true.
    2:{ symmetry. apply existsb_exists. exists r. split; [|assumption].
        rewrite Hu. apply in_or_app. right. now left. }
    rewrite andb_true_r.
    unfold __pay_interest.
    pose proof (pay_interest_body_invalid payment_date r s0 a Hd Ha) as Hb.
    change (balance s0) with (balance self + amount) in Hb.
    destruct (Qeq_bool (balance self + amount) 0) eqn:Ez.
    + rewrite (unpaid_advances_stop unit _ s0 tt skipped rest r s0 tt Break Hu0 Hs0 Ho0 Hb)
        by discriminate.
      simpl. unfold __pay_capital.
      apply Qeq_bool_iff in Ez.
      rewrite (unpaid_advances_stop unit _ s0 tt skipped rest r s0 tt Break Hu0 Hs0 Ho0
                 (pay_capital_body_zero r s0 Ez)) by discriminate.
      reflexivity.
    + rewrite (unpaid_advances_stop unit _ s0 tt skipped rest r s0 tt (Raise ValueError)
                 Hu0 Hs0 Ho0 Hb) by discriminate.
      reflexivity.
Qed.

End PaymentFacts.

(** ** What the generator yields *)

Module TraversalFacts.
Import Balance GeneratorFacts BodyFacts SweepFacts InvariantFacts.

Lemma sorted_filter (f : nat -> bool) (l : list nat) :
  StronglySorted lt l -> StronglySorted lt (filter f l).
Proof.
  induction 1 as [|x l S IH F]; simpl; [constructor|].
  destruct (f x); [|assumption]. constructor; [assumption|].
  rewrite Forall_forall in *. intros y Hy. apply filter_In in Hy as [Hy _]. now apply F.
Qed.

Lemma sorted_app_l (l1 l2 : list nat) :
  StronglySorted lt (l1 ++ l2) -> StronglySorted lt l1.
Proof.
  induction l1 as [|x l1 IH]; simpl; intro S; [constructor|].
  inversion S as [|? ? S1 S2]; subst. constructor; [now apply IH|].
  apply Forall_app in S2. apply S2.
Qed.

(** Writing down what is yielded changes nothing else. *)
Lemma unpaid_advances_loop_erase {L : Type} (body : nat -> t -> L -> t * L * control) (n : nat) :
  forall (i length : nat) (self : t) (l : L) (tr : list nat),
  unpaid_advances_loop body n i length self l =
  let '(self', (l', _), x) := unpaid_advances_loop (traced body) n i length self (l, tr) in
  (self', l', x).
Proof.
  induction n as [|n IH]; intros i len self l tr; [reflexivity|].
  simpl.
  destruct (nth_error (__unpaid_advances self) i) as [r|]; [|reflexivity].
  destruct (deref self r) as [a|]; [|reflexivity].
  destruct (negb (Advance.is_close a)); [|apply IH].
  unfold traced at 1. simpl fst. simpl snd.
  destruct (body r self l) as [[s1 l1] c].
  destruct c; try reflexivity.
  destruct (deref s1 r) as [a1|]; [|reflexivity].
  destruct (Advance.is_close a1); [|apply IH].
  destruct (list_remove r (__unpaid_advances s1)); [apply IH | reflexivity].
Qed.

End TraversalFacts.

(** ** When [add_payment] does not raise *)

Module SuccessFacts.
Import Calendar CalendarFacts AdvanceFacts Balance GeneratorFacts BodyFacts SweepFacts
  InvariantFacts ReachFacts CapitalFacts.



(** The interest sweep under an invariant that keeps its body from raising. *)
Section Sweep.

Variable I : t -> Prop.
Variable payment_date : string.

Hypothesis I_inv : forall s, I s -> inv s.
Hypothesis I_body : forall r s, I s -> In r (__unpaid_advances s) ->
  I (fst (fst (pay_interest_body payment_date r s tt))).
Hypothesis I_remove : forall r s us, I s -> closed s r ->
  list_remove r (__unpaid_advances s) = Some us -> I (set___unpaid_advances s us).
Hypothesis I_ok : forall r s a, I s -> deref s r = Some a ->
  forall e, snd (pay_interest_body payment_date r s tt) <> Raise e.




End Sweep.


(** A payment that goes through leaves the ledger settled. *)
Lemma add_payment_settled (self : t) (payment_date : string) (amount : Q) (self' : t) :
  inv self ->
  add_payment self payment_date amount = (self', Ok tt) ->
  settled self'.
Proof.
  intros R H.
  unfold add_payment in H. cbv zeta in H.
  pose proof (add_payment_start_inv self payment_date amount R) as H0.
  set (s0 := set_balance (set_payments self _) _) in *.
  pose proof (__pay_interest_inv s0 payment_date H0) as H1.
  destruct (__pay_interest s0 payment_date) as [s1 [[]|e]]; simpl in H1; [|discriminate].
  now apply (__pay_capital_post s1 self' (Ok tt) H1).
Qed.

(** A new ledger is settled, and [add_advance] keeps a settled ledger
    settled. *)
Lemma init_settled (daily_interest_rate balance : Q) :
  settled (init daily_interest_rate balance).
Proof. right. constructor. Qed.

Lemma add_advance_settled (self : t) (advance_date : string) (amount : Q) (rate : option Q) :
  settled self -> 0 <= amount ->
  settled (fst (add_advance self advance_date amount rate)).
Proof.
  intros Hs Ha. unfold add_advance, Advance.init. cbv zeta.
  destruct (Qlt_bool amount (balance self)) eqn:E.
  - apply Qlt_bool_iff in E.
    assert (Hall : Forall (fun a => Advance.remaining_amount a == 0) (advances self)).
    { destruct Hs as [Hz|H]; [|exact H]. exfalso. rewrite Hz in E.
      exact (Qlt_not_le _ _ E Ha). }
    destruct (fromisoformat advance_date); simpl; right; try exact Hall.
    apply Forall_app. split; [exact Hall|]. repeat constructor.
  - destruct (fromisoformat advance_date); simpl; left; reflexivity.
Qed.

End SuccessFacts.

(** * The claims *)

Module Claims.
Import Calendar CalendarFacts AdvanceFacts Balance GeneratorFacts BodyFacts SweepFacts
  InvariantFacts ReachFacts CapitalFacts QueryFacts TrackedFacts PaymentFacts
  TraversalFacts SuccessFacts.




(** C5, as amended.  A call of [pay_interest] with a non-negative amount and
    a payment date that is not before the date of the last interest payment
    succeeds and does not move that date backwards. *)
Theorem C5_last_interest_payment_date_monotone
    (self : Advance.t) (amount : Q) (payment_date : string) (d : date) :
  Advance.valid self ->
  0 <= amount ->
  fromisoformat payment_date = Some d ->
  (Advance.last_interest_payment_date self <= d)%Z ->
  exists (self' : Advance.t) (rest paid : Q),
    Advance.pay_interest self amount payment_date = (self', Ok (rest, paid)) /\
    (Advance.last_interest_payment_date self
     <= Advance.last_interest_payment_date self')%Z.
Proof.
  intros V Ha Hd Hle.
  destruct (Qlt_le_dec amount (Advance.interest_payable_at self d)) as [Hlt|Hge].
  - assert (Hi : 0 < Advance.interest_by_day self).
    { apply Qmult_pos_r with (k := Advance.days_between (Advance.last_interest_payment_date self) d).
      - apply days_between_nonneg.
      - eapply Qle_lt_trans; eauto. }
    destruct (pay_interest_days self amount payment_date d V Hi Hd Ha Hlt)
      as (quotient & _ & B & _ & _ & E).
    rewrite E. do 3 eexists. split; [reflexivity|].
    cbn [Advance.last_interest_payment_date Advance.set_last_interest_payment_date].
    lia.
  - rewrite (pay_interest_full self amount payment_date d Hd Hge).
    do 3 eexists. split; [reflexivity|]. exact Hle.
Qed.

Lemma C5_witness :
  exists (self' : Advance.t) (rest paid : Q),
    Advance.pay_interest Examples.advance_1000 (5 # 2) "2024-01-05"
      = (self', Ok (rest, paid)) /\
    (Advance.last_interest_payment_date Examples.advance_1000
     <= Advance.last_interest_payment_date self')%Z.
Proof.
  apply (C5_last_interest_payment_date_monotone
           Examples.advance_1000 (5 # 2) "2024-01-05"%string
           738890%Z).
  - split; reflexivity.
  - discriminate.
  - reflexivity.
  - discriminate.
Defined.

(** C5 as stated fails: a payment dated before the last interest payment
    finds no interest accrued, counts as paying it in full and sets the date
    of the last interest payment back to the payment date. *)
Lemma C5_counterexample :
  exists (a a' : Advance.t) (r : Q * Q),
    Advance.init "2024-01-10" 100 (1 # 100) None = Ok a /\
    0 <= 5 /\
    Advance.pay_interest a 5 "2024-01-01" = (a', Ok r) /\
    (Advance.last_interest_payment_date a' < Advance.last_interest_payment_date a)%Z.
Proof.
  do 3 eexists. split; [reflexivity|]. split; [discriminate|].
  split; [vm_compute; reflexivity|]. reflexivity.
Qed.

(** C8.  A partial interest payment on an advance whose interest per day is
    zero raises (ZeroDivisionError, from the division itself) before
    anything is changed; no value is returned. *)
Theorem C8_zero_interest_by_day_raises
    (self : Advance.t) (amount : Q) (payment_date : string) (interest : Q) :
  Advance.interest_by_day self == 0 ->
  Advance.interest_payable_balance self payment_date = Ok interest ->
  amount < interest ->
  Advance.pay_interest self amount payment_date = (self, Err ZeroDivisionError).
Proof.
  intros Hz Hb Hlt. unfold Advance.pay_interest. rewrite Hb.
  apply Qle_bool_false in Hlt. rewrite Hlt.
  apply Qeq_bool_iff in Hz. cbv zeta. unfold true_div. now rewrite Hz.
Qed.

Lemma C8_witness :
  Advance.pay_interest Examples.advance_free (- (1)) "2024-01-05"
  = (Examples.advance_free, Err ZeroDivisionError).
Proof.
  apply (C8_zero_interest_by_day_raises
           Examples.advance_free (- (1)) "2024-01-05"%string
           (inject_Z 4 * (1000 * 0))).
  - reflexivity.
  - reflexivity.
  - reflexivity.
Defined.

(** C6.  [add_advance] offsets the new advance against the cash buffer: with
    more cash than the amount the advance starts at 0 and the buffer goes
    down by the amount; otherwise the advance starts at the amount less the
    buffer and the buffer becomes 0.  Either way the advance is appended to
    [advances] and a reference to it to the working list.  With a buffer of
    200, an advance of 500 starts at 300 and the buffer becomes 0. *)
Theorem C6_add_advance :
  (forall (self : t) (advance_date : string) (amount : Q) (rate : option Q) (d : date),
     fromisoformat advance_date = Some d ->
     exists (self' : t) (a : Advance.t),
       add_advance self advance_date amount rate = (self', Ok tt) /\
       advances self' = advances self ++ [a] /\
       __unpaid_advances self' = __unpaid_advances self ++ [List.length (advances self)] /\
       deref self' (List.length (advances self)) = Some a /\
       Advance.creation_date a = d /\
       Advance.last_interest_payment_date a = d /\
       Advance.initial_amount a = amount /\
       Advance.daily_interest_rate a
         = match rate with Some r => r | None => daily_interest_rate self end /\
       payments self' = payments self /\
       interest_paid self' = interest_paid self /\
       (amount < balance self ->
        Advance.remaining_amount a = 0 /\ balance self' = balance self - amount) /\
       (~ amount < balance self ->
        Advance.remaining_amount a = amount - balance self /\ balance self' = 0))
  /\
  (exists (self' : t) (a : Advance.t),
     add_advance (init (1 # 100) 200) "2024-01-01" 500 None = (self', Ok tt) /\
     advances self' = [a] /\ __unpaid_advances self' = [O] /\
     Advance.remaining_amount a = 300 /\ balance self' = 0).
Proof.
  split.
  - intros self advance_date amount rate d Hd.
    unfold add_advance, Advance.init. cbv zeta. rewrite Hd.
    destruct (Qlt_bool amount (balance self)) eqn:E.
    + do 2 eexists. split; [reflexivity|]. simpl.
      apply Qlt_bool_iff in E.
      repeat split; try reflexivity; try contradiction.
      unfold deref. simpl. now rewrite nth_error_app2, Nat.sub_diag by lia.
    + do 2 eexists. split; [reflexivity|]. simpl.
      assert (E' : ~ amount < balance self)
        by (intro H; apply Qlt_bool_iff in H; congruence).
      repeat split; try reflexivity; try contradiction.
      unfold deref. simpl. now rewrite nth_error_app2, Nat.sub_diag by lia.
  - do 2 eexists. split; [vm_compute; reflexivity|]. repeat split; reflexivity.
Qed.

Lemma C6_witness :
  exists (self' : t) (a : Advance.t),
    add_advance (init (1 # 100) 200) "2024-01-01" 500 (Some (1 # 50)) = (self', Ok tt) /\
    Advance.daily_interest_rate a = 1 # 50 /\
    Advance.remaining_amount a = 500 - 200 /\ balance self' = 0.
Proof.
  destruct (proj1 C6_add_advance (init (1 # 100) 200) "2024-01-01"%string 500
              (Some (1 # 50)) 738886%Z eq_refl)
    as (self' & a & H1 & _ & _ & _ & _ & _ & _ & H2 & _ & _ & _ & H3).
  exists self', a. split; [exact H1|]. split; [exact H2|].
  apply H3. discriminate.
Defined.

(** C7.  With non-negative amounts only, what remains of every advance is
    never negative, after any operation, failed or not; and [pay_capital]
    sets [remaining_amount] to max(0, remaining_amount - amount) and returns
    max(0, amount - remaining_amount): the excess when the subtraction goes
    below zero, and 0 otherwise. *)
Theorem C7_remaining_amount_nonneg :
  (forall self : t,
     reachable self -> Forall (fun a => 0 <= Advance.remaining_amount a) (advances self))
  /\
  (forall (a : Advance.t) (amount : Q),
     Advance.remaining_amount (fst (Advance.pay_capital a amount))
       == Qmax 0 (Advance.remaining_amount a - amount) /\
     snd (Advance.pay_capital a amount) == Qmax 0 (amount - Advance.remaining_amount a) /\
     (Advance.remaining_amount a - amount < 0 ->
      snd (Advance.pay_capital a amount) == amount - Advance.remaining_amount a) /\
     (0 <= Advance.remaining_amount a - amount -> snd (Advance.pay_capital a amount) = 0)).
Proof.
  split.
  - intros self H. apply reachable_inv in H. apply H.
  - intros a amount. destruct (pay_capital_spec a amount) as [H1 H2].
    split; [exact H1|]. split; [exact H2|]. split.
    + intro Hlt. unfold Advance.pay_capital. cbv zeta. simpl Advance.remaining_amount.
      apply Qlt_bool_iff in Hlt. rewrite Hlt. simpl. ring.
    + intro Hle. unfold Advance.pay_capital. cbv zeta. simpl Advance.remaining_amount.
      apply Qlt_bool_false in Hle. now rewrite Hle.
Qed.

Lemma C7_witness :
  Forall (fun a => 0 <= Advance.remaining_amount a)
         (advances (fst (add_payment Examples.ledger_one "2024-01-11" 200))).
Proof.
  apply (proj1 C7_remaining_amount_nonneg).
  apply reachable_add_payment; [|discriminate].
  apply reachable_add_advance; [|discriminate].
  apply reachable_init. discriminate.
Defined.

(** C10.  With non-negative amounts only, after an [add_payment] that did
    not raise, either the cash buffer is 0 or every advance of the ledger is
    paid off. *)
Theorem C10_no_cash_beside_open_advance
    (self : t) (payment_date : string) (amount : Q) (self' : t) :
  reachable self ->
  0 <= amount ->
  add_payment self payment_date amount = (self', Ok tt) ->
  balance self' == 0 \/
  Forall (fun a => Advance.remaining_amount a == 0) (advances self').
Proof.
  intros R Ha H. apply reachable_inv in R.
  exact (add_payment_settled self payment_date amount self' R H).
Qed.

Lemma C10_witness :
  balance (fst (add_payment Examples.ledger_one "2024-01-11" 200)) == 0 \/
  Forall (fun a => Advance.remaining_amount a == 0)
         (advances (fst (add_payment Examples.ledger_one "2024-01-11" 200))).
Proof.
  apply (C10_no_cash_beside_open_advance Examples.ledger_one "2024-01-11"%string 200).
  - apply reachable_add_advance; [|discriminate]. apply reachable_init. discriminate.
  - discriminate.
  - vm_compute. reflexivity.
Defined.

(** C3, as amended.  For a date before 9999-12-31, the last one there is,
    [Balance.interest_payable_balance] leaves the ledger as it is and returns
    the sum, over the open advances of the working list, of
    [Advance.interest_payable_balance] at the next day, so that the day
    [to_date] itself is counted.  In a reachable ledger the open advances of
    the working list are the open advances of the ledger.  At 9999-12-31
    the call raises OverflowError and leaves the ledger as it is, whatever
    the ledger.  For one advance of 100 at 0.01 created 2024-01-01 the
    interest payable at 2024-01-01 is 1, not 0. *)
Theorem C3_interest_payable_balance_inclusive :
  (forall (self : t) (to_date : string) (d : date),
     wf self ->
     fromisoformat to_date = Some d ->
     (d < MAXORD)%Z ->
     exists next_day : string,
       fromisoformat next_day = Some (d + 1)%Z /\
       Forall (fun a => Advance.interest_payable_balance a next_day
                        = Ok (Advance.interest_payable_at a (d + 1)%Z))
              (open_advances self) /\
       interest_payable_balance self to_date =
         (self, Ok (sum (map (fun a => Advance.interest_payable_at a (d + 1)%Z)
                             (open_advances self)))))
  /\
  (forall self : t,
     reachable self ->
     open_advances self = filter (fun a => negb (Advance.is_close a)) (advances self))
  /\
  (fromisoformat "9999-12-31" = Some MAXORD /\
   forall self : t,
     interest_payable_balance self "9999-12-31" = (self, Err OverflowError))
  /\
  (exists (self : t) (v : Q),
     add_advance (init (1 # 100) 0) "2024-01-01" 100 None = (self, Ok tt) /\
     interest_payable_balance self "2024-01-01" = (self, Ok v) /\
     v == 1).
Proof.
  split; [|split; [|split; [split; [reflexivity | intro self; reflexivity]|]]].
  - intros self to_date d W Hd Hmax.
    destruct (interest_payable_balance_next_day self to_date d W Hd Hmax) as [H1 H2].
    exists (isoformat (d + 1)%Z). split; [exact H1|]. split; [|exact H2].
    apply Forall_forall. intros a _. now apply interest_payable_balance_date.
  - intros self R. apply open_advances_all. now apply reachable_inv.
  - do 2 eexists. split; [vm_compute; reflexivity|].
    split; [vm_compute; reflexivity|]. reflexivity.
Qed.

Lemma C3_witness :
  exists next_day : string,
    fromisoformat next_day = Some (738895 + 1)%Z /\
    Forall (fun a => Advance.interest_payable_balance a next_day
                     = Ok (Advance.interest_payable_at a (738895 + 1)%Z))
           (open_advances Examples.ledger_one) /\
    interest_payable_balance Examples.ledger_one "2024-01-10" =
      (Examples.ledger_one,
       Ok (sum (map (fun a => Advance.interest_payable_at a (738895 + 1)%Z)
                    (open_advances Examples.ledger_one)))).
Proof.
  apply (proj1 C3_interest_payable_balance_inclusive Examples.ledger_one "2024-01-10"%string
           738895%Z).
  - split.
    + repeat constructor.
    + repeat constructor.
  - reflexivity.
  - reflexivity.
Defined.

(** C3 as stated fails at the last date: the next day is no date and the
    call raises OverflowError, whatever the advances. *)
Lemma C3_counterexample :
  fromisoformat "9999-12-31" = Some MAXORD /\
  open_advances (init (1 # 100) 0) = [] /\
  interest_payable_balance (init (1 # 100) 0) "9999-12-31"
    = (init (1 # 100) 0, Err OverflowError).
Proof. repeat split; reflexivity. Qed.

(** C9, as amended.  [add_payment] is not all-or-nothing.  With a payment
    date that is no date it raises ValueError exactly when there is cash to
    sweep and an open advance in the working list; raised or not, the
    payment has been appended to [payments] and added to the cash buffer by
    then, while the advances, the working list and the interest paid are as
    before. *)
Theorem C9_add_payment_invalid_date
    (self : t) (payment_date : string) (amount : Q) :
  wf self ->
  fromisoformat payment_date = None ->
  exists (self' : t) (res : result unit),
    add_payment self payment_date amount = (self', res) /\
    payments self' = payments self ++ [Payment.make payment_date amount] /\
    balance self' = balance self + amount /\
    advances self' = advances self /\
    __unpaid_advances self' = __unpaid_advances self /\
    interest_paid self' = interest_paid self /\
    daily_interest_rate self' = daily_interest_rate self /\
    (res = Err ValueError \/ res = Ok tt) /\
    (res = Err ValueError <->
     ~ balance self + amount == 0 /\
     exists r, In r (__unpaid_advances self) /\ is_open self r = true).
Proof.
  intros W Hd. rewrite (add_payment_invalid self payment_date amount W Hd).
  do 2 eexists. split; [reflexivity|]. simpl.
  do 6 (split; [reflexivity|]).
  split; [destruct (_ && _); auto|].
  split.
  - intro H. destruct (Qeq_bool (balance self + amount) 0) eqn:E; [discriminate|].
    split; [now apply Qeq_bool_false in E|].
    simpl in H. destruct (existsb _ _) eqn:E'; [|discriminate].
    apply existsb_exists in E'. exact E'.
  - intros [Hz Hex].
    apply Qeq_bool_false in Hz. rewrite Hz.
    replace (existsb (is_open self) (__unpaid_advances self)) with true; [reflexivity|].
    symmetry. now apply existsb_exists.
Qed.

Lemma C9_witness :
  exists (self' : t) (res : result unit),
    add_payment Examples.ledger_one "11/01/2024" 50 = (self', res) /\
    payments self' = payments Examples.ledger_one ++ [Payment.make "11/01/2024" 50] /\
    balance self' = balance Examples.ledger_one + 50 /\
    advances self' = advances Examples.ledger_one /\
    __unpaid_advances self' = __unpaid_advances Examples.ledger_one /\
    interest_paid self' = interest_paid Examples.ledger_one /\
    daily_interest_rate self' = daily_interest_rate Examples.ledger_one /\
    (res = Err ValueError \/ res = Ok tt) /\
    (res = Err ValueError <->
     ~ balance Examples.ledger_one + 50 == 0 /\
     exists r, In r (__unpaid_advances Examples.ledger_one)
               /\ is_open Examples.ledger_one r = true).
Proof.
  apply (C9_add_payment_invalid_date Examples.ledger_one "11/01/2024"%string 50).
  - split.
    + repeat constructor.
    + repeat constructor.
  - reflexivity.
Defined.

(** C9 as stated fails: the call that raises on a malformed date has already
    recorded the payment and put it in the cash buffer. *)
Lemma C9_counterexample :
  exists self' : t,
    add_payment Examples.ledger_one "11/01/2024" 50 = (self', Err ValueError) /\
    payments Examples.ledger_one = [] /\
    payments self' = [Payment.make "11/01/2024" 50] /\
    balance Examples.ledger_one = 0 /\
    balance self' = 0 + 50 /\
    self' <> Examples.ledger_one.
Proof.
  eexists. split; [vm_compute; reflexivity|].
  repeat split; try reflexivity. discriminate.
Qed.

(** C4, as amended.  A [for] loop over [unpaid_advances], with a body that
    leaves the working list alone and touches no advance but the one it is
    handed, is handed the advances of the working list that are open, in
    creation order, each once and none passed over, up to where the loop
    stops.  An advance that the body has closed is removed from the working
    list before the next one is looked at.  An advance that is already
    closed when reached is passed over and stays in the working list. *)
Theorem C4_unpaid_advances_traversal
    (L : Type) (body : nat -> t -> L -> t * L * control)
    (self : t) (l : L) (self' : t) (l' : L) (trace : list nat) (x : exit) :
  wf self ->
  frame body ->
  unpaid_advances (traced body) self (l, []) = (self', (l', trace), x) ->
  unpaid_advances body self l = (self', l', x) /\
  (exists rest,
     filter (is_open self) (__unpaid_advances self) = trace ++ rest /\
     (x = Exhausted -> rest = [])) /\
  StronglySorted lt trace /\
  __unpaid_advances self' =
    filter (fun r => negb (mem r (processed x trace) && negb (is_open self' r)))
           (__unpaid_advances self) /\
  (forall r, In r (__unpaid_advances self) -> is_open self r = false ->
             In r (__unpaid_advances self') /\ ~ In r trace).
Proof.
  intros W F H.
  assert (He : unpaid_advances body self l = (self', l', x)).
  { unfold unpaid_advances in *. cbv zeta in *.
    rewrite (unpaid_advances_loop_erase body _ _ _ self l []), H. reflexivity. }
  split; [exact He|].
  unfold unpaid_advances in H. cbv zeta in H. rewrite Nat.sub_0_r in H.
  destruct W as [S R].
  apply (unpaid_advances_loop_traced L body F (__unpaid_advances self) [] self l [])
    in H as (ys & rest & E1 & E2 & E3 & E4 & E5 & E6 & E7);
    [| reflexivity | now apply sorted_NoDup | assumption].
  simpl in E1, E5. subst ys.
  assert (Hs : StronglySorted lt trace).
  { apply sorted_app_l with (l2 := rest). rewrite <- E2. now apply sorted_filter. }
  split; [exists rest; now split|]. split; [exact Hs|]. split; [exact E5|].
  intros r Hin Hc.
  assert (Hn : ~ In r trace).
  { intro Hi.
    assert (Hi' : In r (filter (is_open self) (__unpaid_advances self)))
      by (rewrite E2; apply in_or_app; now left).
    apply filter_In in Hi' as [_ Ho]. congruence. }
  split; [|exact Hn].
  rewrite E5. apply filter_In. split; [assumption|].
  rewrite (mem_not_In r (processed x trace)); [reflexivity|].
  intro Hi. apply Hn. eapply In_processed. exact Hi.
Qed.

Lemma C4_witness :
  exists self' : t,
    unpaid_advances pay_capital_body Examples.ledger_three tt = (self', tt, Broke) /\
    (exists rest,
       filter (is_open Examples.ledger_three) (__unpaid_advances Examples.ledger_three)
         = [0; 1; 2]%nat ++ rest /\
       (Broke = Exhausted -> rest = [])) /\
    StronglySorted lt [0; 1; 2]%nat /\
    __unpaid_advances self' =
      filter (fun r => negb (mem r (processed Broke [0; 1; 2]%nat) && negb (is_open self' r)))
             (__unpaid_advances Examples.ledger_three) /\
    (forall r, In r (__unpaid_advances Examples.ledger_three) ->
               is_open Examples.ledger_three r = false ->
               In r (__unpaid_advances self') /\ ~ In r [0; 1; 2]%nat).
Proof.
  eexists.
  apply (C4_unpaid_advances_traversal unit pay_capital_body Examples.ledger_three tt).
  - split.
    + repeat constructor.
    + repeat constructor.
  - exact pay_capital_body_frame.
  - vm_compute. reflexivity.
Defined.

(** C4 as stated fails: an advance that is closed when the generator reaches
    it (here one paid from the cash buffer on creation) is passed over but
    not removed; it is still in the working list after the two sweeps of a
    payment. *)
Lemma C4_counterexample :
  __unpaid_advances Examples.ledger_prefunded = [O] /\
  is_open Examples.ledger_prefunded O = false /\
  unpaid_advances (traced remaining_amount_body) Examples.ledger_prefunded ([], [])
    = (Examples.ledger_prefunded, ([], []), Exhausted) /\
  snd (add_payment Examples.ledger_prefunded "2024-01-02" 50) = Ok tt /\
  __unpaid_advances (fst (add_payment Examples.ledger_prefunded "2024-01-02" 50)) = [O].
Proof. repeat split; vm_compute; reflexivity. Qed.




End Claims.

(** * Further properties of the code *)

(** ** More on Advance *)

Module AdvanceMore.
Import Calendar CalendarFacts AdvanceFacts Advance.

Lemma interest_payable_at_before (a : t) (d : date) :
  (d <= last_interest_payment_date a)%Z -> interest_payable_at a d = 0 * interest_by_day a.
Proof.
  intro H. unfold interest_payable_at, days_between.
  apply Z.leb_le in H. now rewrite H.
Qed.

Lemma inject_Z_nonneg (k : Z) : (0 <= k)%Z -> 0 <= inject_Z k.
Proof. intro H. change 0 with (inject_Z 0). now rewrite <- Zle_Qle. Qed.

Lemma interest_payable_at_nonneg (a : t) (d : date) :
  0 <= interest_by_day a -> 0 <= interest_payable_at a d.
Proof.
  intro H. unfold interest_payable_at.
  apply Qmult_le_0_compat; [|assumption].
  apply inject_Z_nonneg, days_between_nonneg.
Qed.

Lemma days_between_mono (d0 d1 d2 : date) :
  (d1 <= d2)%Z -> (days_between d0 d1 <= days_between d0 d2)%Z.
Proof.
  intro H. unfold days_between, date_sub_days.
  destruct (d1 <=? d0)%Z eqn:E1; destruct (d2 <=? d0)%Z eqn:E2; bool_to_Z; lia.
Qed.


Lemma days_between_same (d : date) : days_between d d = 0%Z.
Proof. unfold days_between. now rewrite Z.leb_refl. Qed.





End AdvanceMore.

(** ** Sums *)

Module SumFacts.

Lemma fold_left_Qplus (l : list Q) (a : Q) : fold_left Qplus l a == a + sum l.
Proof.
  unfold sum. revert a. induction l as [|x l IH]; intro a; simpl.
  - ring.
  - rewrite (IH (a + x)), (IH (0 + x)). ring.
Qed.

Lemma sum_cons (x : Q) (l : list Q) : sum (x :: l) == x + sum l.
Proof. unfold sum at 1. simpl. rewrite fold_left_Qplus. ring. Qed.



Lemma sum_nonneg (l : list Q) : Forall (fun x => 0 <= x) l -> 0 <= sum l.
Proof.
  induction 1 as [|x l Hx H IH]; [apply Qle_refl|].
  rewrite sum_cons. setoid_replace 0 with (0 + 0) by ring. now apply Qplus_le_compat.
Qed.




Lemma sum_map_filter {A : Type} (f : A -> Q) (p : A -> bool) (l : list A) :
  (forall x, In x l -> p x = false -> f x == 0) ->
  sum (map f (filter p l)) == sum (map f l).
Proof.
  induction l as [|x l IH]; intro H; [reflexivity|].
  simpl. assert (IH' : sum (map f (filter p l)) == sum (map f l)).
  { apply IH. intros y Hy. apply H. now right. }
  destruct (p x) eqn:E; simpl; rewrite !sum_cons, IH'; [reflexivity|].
  rewrite (H x (or_introl eq_refl) E). ring.
Qed.

End SumFacts.

(** ** What every step of a payment preserves, the payment preserves *)

Module PaymentRule.
Import Calendar CalendarFacts AdvanceFacts Balance GeneratorFacts BodyFacts SweepFacts
  InvariantFacts ReachFacts.

Lemma is_open_inv (self : t) (r : nat) :
  is_open self r = true ->
  exists a, deref self r = Some a /\ Advance.is_close a = false.
Proof.
  unfold is_open. destruct (deref self r) as [a|]; [|discriminate].
  intro H. exists a. split; [reflexivity | now apply negb_true_iff].
Qed.

(* the state in which [add_payment] starts its sweeps *)
Lemma add_payment_unfold (self : t) (payment_date : string) (amount : Q) :
  add_payment self payment_date amount =
  let s0 := set_balance
              (set_payments self (payments self ++ [Payment.make payment_date amount]))
              (balance self + amount) in
  match __pay_interest s0 payment_date with
  | (s1, Err e) => (s1, Err e)
  | (s1, Ok _) => __pay_capital s1
  end.
Proof. reflexivity. Qed.

Section Rule.
Variable I : t -> Prop.
Variable payment_date : string.

Hypothesis interest_step : forall r self,
  I self -> In r (__unpaid_advances self) -> is_open self r = true ->
  I (fst (fst (pay_interest_body payment_date r self tt))).

Hypothesis capital_step : forall r self,
  I self -> In r (__unpaid_advances self) -> is_open self r = true ->
  I (fst (fst (pay_capital_body r self tt))).

Hypothesis remove_step : forall r self us,
  I self -> closed self r -> list_remove r (__unpaid_advances self) = Some us ->
  I (set___unpaid_advances self us).

Lemma __pay_interest_rule (self : t) : I self -> I (fst (__pay_interest self payment_date)).
Proof.
  intro H. unfold __pay_interest, unpaid_advances. cbv zeta.
  pose proof (unpaid_advances_loop_inv unit (pay_interest_body payment_date) (fun s _ => I s)
                (fun r s l Hs Hin Ho => match l with tt => interest_step r s Hs Hin Ho end)
                (fun r s l us Hs Hc Hr => remove_step r s us Hs Hc Hr)
                (List.length (__unpaid_advances self) - 0) O
                (List.length (__unpaid_advances self)) self tt H) as HI.
  destruct (unpaid_advances_loop _ _ _ _ self tt) as [[s l] x]. exact HI.
Qed.

Lemma __pay_capital_rule (self : t) : I self -> I (fst (__pay_capital self)).
Proof.
  intro H. unfold __pay_capital, unpaid_advances. cbv zeta.
  pose proof (unpaid_advances_loop_inv unit pay_capital_body (fun s _ => I s)
                (fun r s l Hs Hin Ho => match l with tt => capital_step r s Hs Hin Ho end)
                (fun r s l us Hs Hc Hr => remove_step r s us Hs Hc Hr)
                (List.length (__unpaid_advances self) - 0) O
                (List.length (__unpaid_advances self)) self tt H) as HI.
  destruct (unpaid_advances_loop _ _ _ _ self tt) as [[s l] x]. exact HI.
Qed.

Lemma add_payment_rule (self : t) (amount : Q) :
  I (set_balance (set_payments self (payments self ++ [Payment.make payment_date amount]))
       (balance self + amount)) ->
  I (fst (add_payment self payment_date amount)).
Proof.
  intro H. rewrite add_payment_unfold. cbv zeta.
  apply __pay_interest_rule in H.
  destruct (__pay_interest _ payment_date) as [s1 [[]|e]]; simpl in H |- *.
  - now apply __pay_capital_rule.
  - exact H.
Qed.

End Rule.

(** What the two bodies do to the ledger when handed an open advance. *)
Lemma pay_capital_body_at (r : nat) (self : t) (a : Advance.t) :
  deref self r = Some a ->
  fst (fst (pay_capital_body r self tt)) = self \/
  (Qeq_bool (balance self) 0 = false /\
   fst (fst (pay_capital_body r self tt)) =
     set_balance (store self r (fst (Advance.pay_capital a (balance self))))
                 (snd (Advance.pay_capital a (balance self)))).
Proof.
  intro Ha. unfold pay_capital_body.
  destruct (Qeq_bool (balance self) 0); [now left|]. right. split; [reflexivity|].
  rewrite Ha. now destruct (Advance.pay_capital a (balance self)).
Qed.

Lemma pay_interest_body_at (payment_date : string) (r : nat) (self : t) (a : Advance.t) :
  deref self r = Some a ->
  fst (fst (pay_interest_body payment_date r self tt)) = self \/
  (Qeq_bool (balance self) 0 = false /\
   exists a' rest paid,
     Advance.pay_interest a (balance self) payment_date = (a', Ok (rest, paid)) /\
     fst (fst (pay_interest_body payment_date r self tt)) =
       set_interest_paid (set_balance (store self r a') rest) (interest_paid self + paid)).
Proof.
  intro Ha. unfold pay_interest_body.
  destruct (Qeq_bool (balance self) 0); [now left|]. rewrite Ha.
  destruct (Advance.pay_interest a (balance self) payment_date) as [a' [[rest paid]|e]] eqn:E.
  - right. split; [reflexivity|]. exists a', rest, paid. split; reflexivity.
  - left. simpl.
    assert (a' = a).
    { unfold Advance.pay_interest in E.
      destruct (Advance.interest_payable_balance a payment_date); [|congruence].
      destruct (Qle_bool _ _).
      - destruct (fromisoformat payment_date); congruence.
      - cbv zeta in E. destruct (true_div _ _); [|congruence].
        destruct (bind _ _); congruence. }
    subst. now apply store_same.
Qed.

(* [pay_interest] returns what it was given, less what it took *)
Lemma pay_interest_conserve (a : Advance.t) (amount : Q) (payment_date : string)
    (a' : Advance.t) (rest paid : Q) :
  Advance.pay_interest a amount payment_date = (a', Ok (rest, paid)) ->
  rest + paid == amount /\
  Advance.remaining_amount a' = Advance.remaining_amount a /\
  Advance.daily_interest_rate a' = Advance.daily_interest_rate a /\
  Advance.creation_date a' = Advance.creation_date a /\
  Advance.initial_amount a' = Advance.initial_amount a.
Proof.
  unfold Advance.pay_interest.
  destruct (Advance.interest_payable_balance a payment_date) as [i|]; [|discriminate].
  destruct (Qle_bool _ _).
  - destruct (fromisoformat payment_date); [|discriminate].
    intro H. injection H as <- <- <-. repeat split; try reflexivity. ring.
  - cbv zeta. destruct (true_div _ _); [|discriminate].
    destruct (bind _ _); [|discriminate].
    intro H. injection H as <- <- <-. repeat split; try reflexivity. ring.
Qed.

Lemma pay_capital_conserve (a : Advance.t) (amount : Q) :
  Advance.remaining_amount a - Advance.remaining_amount (fst (Advance.pay_capital a amount))
  + snd (Advance.pay_capital a amount) == amount.
Proof.
  unfold Advance.pay_capital. cbv zeta. simpl Advance.remaining_amount.
  destruct (Qlt_bool _ 0); simpl; ring.
Qed.

End PaymentRule.

(** ** What a payment keeps *)

Module LedgerMore.
Import Calendar CalendarFacts AdvanceFacts AdvanceMore SumFacts Balance GeneratorFacts BodyFacts
  SweepFacts InvariantFacts ReachFacts CapitalFacts PaymentRule.




Lemma closed_kept_step {L : Type} (body : nat -> t -> L -> t * L * control) (self0 : t)
    (r : nat) (self : t) (l : L) :
  frame body -> closed_kept self0 self -> is_open self r = true ->
  closed_kept self0 (fst (fst (body r self l))).
Proof.
  intros F H Ho r0 a Ha Hc.
  destruct (F r self l) as (_ & _ & F3). cbv zeta in F3.
  rewrite F3; [now apply H|].
  intro. subst r0. unfold is_open in Ho. rewrite (H r a Ha Hc), Hc in Ho. discriminate.
Qed.

Lemma same_advances_store (self0 self : t) (r : nat) (a a' : Advance.t) :
  same_advances self0 self -> deref self r = Some a ->
  Advance.creation_date a' = Advance.creation_date a ->
  Advance.initial_amount a' = Advance.initial_amount a ->
  Advance.daily_interest_rate a' = Advance.daily_interest_rate a ->
  same_advances self0 (store self r a').
Proof.
  intros [Hl H] Ha E1 E2 E3. split; [now rewrite length_store|].
  intros r0 a0 Ha0. destruct (H r0 a0 Ha0) as (a1 & Ha1 & F1 & F2 & F3).
  destruct (Nat.eq_dec r0 r) as [->|Hne].
  - exists a'. split; [apply deref_store_eq; eapply deref_lt; eauto|].
    assert (a1 = a) by congruence. subst a1. repeat split; congruence.
  - exists a1. split; [now rewrite deref_store_ne|]. auto.
Qed.

Lemma same_advances_interest_step (payment_date : string) (self0 : t) (r : nat) (self : t) :
  same_advances self0 self -> is_open self r = true ->
  same_advances self0 (fst (fst (pay_interest_body payment_date r self tt))).
Proof.
  intros H Ho. destruct (is_open_inv self r Ho) as (a & Ha & _).
  destruct (pay_interest_body_at payment_date r self a Ha)
    as [-> | (_ & a' & rest & paid & E & ->)]; [assumption|].
  destruct (pay_interest_conserve a _ _ a' rest paid E) as (_ & _ & E3 & E1 & E2).
  exact (same_advances_store self0 self r a a' H Ha E1 E2 E3).
Qed.

Lemma same_advances_capital_step (self0 : t) (r : nat) (self : t) :
  same_advances self0 self -> is_open self r = true ->
  same_advances self0 (fst (fst (pay_capital_body r self tt))).
Proof.
  intros H Ho. destruct (is_open_inv self r Ho) as (a & Ha & _).
  destruct (pay_capital_body_at r self a Ha) as [-> | (_ & ->)]; [assumption|].
  destruct (pay_capital_fields a (balance self)) as (E1 & E2 & E3 & _). cbv zeta in E1, E2, E3.
  exact (same_advances_store self0 self r a _ H Ha E1 E2 E3).
Qed.


Lemma pay_capital_le (a : Advance.t) (amount : Q) :
  0 <= Advance.remaining_amount a -> 0 <= amount ->
  Advance.remaining_amount (fst (Advance.pay_capital a amount)) <= Advance.remaining_amount a.
Proof.
  intros Hr Ha. unfold Advance.pay_capital. cbv zeta. simpl Advance.remaining_amount.
  destruct (Qlt_bool _ 0); simpl; [assumption|].
  rewrite <- (Qplus_0_r (Advance.remaining_amount a)) at 2.
  unfold Qminus. apply Qplus_le_r.
  setoid_replace 0 with (- 0) by ring. now apply Qopp_le_compat.
Qed.






(** *** Interest collected against interest accrued *)


Lemma interest_by_day_nonneg (a : Advance.t) :
  0 <= Advance.remaining_amount a -> 0 <= Advance.daily_interest_rate a ->
  0 <= Advance.interest_by_day a.
Proof. intros. unfold Advance.interest_by_day. now apply Qmult_le_0_compat. Qed.







End LedgerMore.

(** ** The capital sweep pays the oldest advance first *)

Module OrderFacts.
Import Calendar CalendarFacts AdvanceFacts Balance GeneratorFacts BodyFacts
  SweepFacts InvariantFacts ReachFacts CapitalFacts PaymentRule LedgerMore.

Lemma closed_open_absurd (self : t) (r : nat) :
  closed self r -> is_open self r = true -> False.
Proof. intros Hc Ho. rewrite (closed_not_open _ _ Hc) in Ho. discriminate. Qed.

Lemma NoDup_app_apart (l1 l2 : list nat) (x : nat) :
  NoDup (l1 ++ l2) -> In x l1 -> In x l2 -> False.
Proof.
  induction l1 as [|y l1 IH]; simpl; intros Hnd H1 H2; [contradiction|].
  inversion Hnd as [|? ? Hy Hnd']; subst.
  destruct H1 as [->|H1]; [|now apply IH].
  apply Hy, in_or_app. now right.
Qed.

Lemma pay_capital_loop_order (todo : list nat) :
  forall (kept : list nat) (self : t) (length : nat) (self' : t) (x : exit),
  __unpaid_advances self = kept ++ todo ->
  NoDup (kept ++ todo) ->
  Forall (fun r => (r < List.length (advances self))%nat) todo ->
  balance self == 0 \/ Forall (closed self) kept ->
  unpaid_advances_loop pay_capital_body (List.length todo) (List.length kept) length self tt
    = (self', tt, x) ->
  (forall r, ~ In r todo -> deref self' r = deref self r) /\
  (forall pre r' post, todo = pre ++ r' :: post ->
     (exists r, In r (kept ++ pre) /\ is_open self' r = true) ->
     deref self' r' = deref self r').
Proof.
  induction todo as [|r todo IH]; intros kept self len self' x Hu Hnd Hr HJ.
  - simpl. intro H. injection H as <- <-. split; [reflexivity|].
    intros [|? ?] ? ? E; discriminate.
  - assert (Hrk : ~ In r kept).
    { intro Hi. apply NoDup_remove_2 in Hnd. apply Hnd, in_or_app. now left. }
    assert (Hrt : ~ In r todo).
    { intro Hi. apply NoDup_remove_2 in Hnd. apply Hnd, in_or_app. now right. }
    assert (Hnd1 : NoDup (kept ++ todo)) by now apply NoDup_remove_1 in Hnd.
    assert (Hnd2 : NoDup ((kept ++ [r]) ++ todo)) by now rewrite <- app_assoc.
    assert (Hkt : forall r0, In r0 kept -> ~ In r0 todo).
    { intros r0 H0 H1. exact (NoDup_app_apart kept todo r0 Hnd1 H0 H1). }
    inversion Hr as [|? ? Hr1 Hr2]; subst.
    change (List.length (r :: todo)) with (S (List.length todo)).
    rewrite (unpaid_advances_loop_cons _ pay_capital_body
               (frame_unpaid pay_capital_body pay_capital_body_frame)
               kept todo r len self tt Hu Hrk).
    destruct (deref_Some self r Hr1) as [a Ha]. rewrite Ha.
    destruct (negb (Advance.is_close a)) eqn:Ec.
    + unfold pay_capital_body at 1.
      destruct (Qeq_bool (balance self) 0) eqn:Eb.
      * intro H. injection H as <- <-. split; reflexivity.
      * rewrite Ha.
        pose proof (pay_capital_open_rest a (balance self)) as Hrest.
        destruct (Advance.pay_capital a (balance self)) as [a' rest]. simpl in Hrest.
        set (s1 := set_balance (store self r a') rest).
        assert (Hd : deref s1 r = Some a') by (apply (deref_store_eq self r a' Hr1)).
        assert (Hne : forall r0, r0 <> r -> deref s1 r0 = deref self r0)
          by (intros r0 H0; apply (deref_store_ne self r r0 a' H0)).
        rewrite Hd.
        assert (Hkept0 : Forall (closed self) kept).
        { destruct HJ as [HJ|HJ]; [|assumption].
          apply Qeq_bool_iff in HJ. congruence. }
        assert (Hkept : Forall (closed s1) kept).
        { rewrite Forall_forall in *. intros r0 Hi.
          apply (closed_frame self); [|now apply Hkept0].
          apply Hne. intro. subst. contradiction. }
        destruct (Advance.is_close a') eqn:Ec'.
        -- intro H.
           apply IH in H as [A B];
             [| reflexivity | assumption | simpl; now rewrite length_list_set | now right].
           simpl deref in A, B.
           assert (Hk' : Forall (closed self') kept).
           { rewrite Forall_forall in *. intros r0 Hi.
             apply (closed_frame s1); [|now apply Hkept].
             apply A. now apply Hkt. }
           assert (Hcr : closed self' r).
           { exists a'. split; [|assumption]. rewrite (A r Hrt). exact Hd. }
           split.
           ++ intros r0 Hn. rewrite A by (intro; apply Hn; now right).
              apply Hne. intro. subst. apply Hn. now left.
           ++ intros [|p pre] r' post E [r0 [Hin Ho]]; simpl in E; injection E as <- ->.
              ** exfalso. rewrite app_nil_r in Hin. rewrite Forall_forall in Hk'.
                 exact (closed_open_absurd self' r0 (Hk' r0 Hin) Ho).
              ** rewrite (B pre r' post eq_refl).
                 --- apply Hne. intro. subst. apply Hrt, in_or_app. right. now left.
                 --- exists r0. split; [|assumption].
                     apply in_app_or in Hin as [Hin | [<- | Hin]].
                     +++ apply in_or_app. now left.
                     +++ exfalso. exact (closed_open_absurd self' r Hcr Ho).
                     +++ apply in_or_app. now right.
        -- intro H.
           apply IH in H as [A B];
             [| simpl; now rewrite Hu, <- app_assoc | assumption
              | simpl; now rewrite length_list_set
              | left; simpl; rewrite Hrest by reflexivity; reflexivity].
           assert (Hk' : Forall (closed self') kept).
           { rewrite Forall_forall in *. intros r0 Hi.
             apply (closed_frame s1); [|now apply Hkept].
             apply A. now apply Hkt. }
           split.
           ++ intros r0 Hn. rewrite A by (intro; apply Hn; now right).
              apply Hne. intro. subst. apply Hn. now left.
           ++ intros [|p pre] r' post E [r0 [Hin Ho]]; simpl in E; injection E as <- ->.
              ** exfalso. rewrite app_nil_r in Hin. rewrite Forall_forall in Hk'.
                 exact (closed_open_absurd self' r0 (Hk' r0 Hin) Ho).
              ** rewrite (B pre r' post eq_refl).
                 --- apply Hne. intro. subst. apply Hrt, in_or_app. right. now left.
                 --- exists r0. split; [|assumption]. rewrite <- app_assoc. exact Hin.
    + intro H.
      apply IH in H as [A B];
        [| now rewrite Hu, <- app_assoc | assumption | assumption |].
      * split.
        -- intros r0 Hn. apply A. intro. apply Hn. now right.
        -- intros [|p pre] r' post E [r0 [Hin Ho]]; simpl in E; injection E as <- ->.
           ++ now apply A.
           ++ apply (B pre r' post eq_refl). exists r0. split; [|assumption].
              rewrite <- app_assoc. exact Hin.
      * destruct HJ as [HJ|HJ]; [now left | right].
        apply Forall_app. split; [assumption|]. constructor; [|constructor].
        exists a. split; [assumption|]. now apply negb_false_iff in Ec.
Qed.


Lemma sorted_after (pre post : list nat) (x y : nat) :
  StronglySorted lt (pre ++ x :: post) -> In y post -> (x < y)%nat.
Proof.
  induction pre as [|z pre IH]; simpl; intros S Hy.
  - inversion S as [|? ? _ F]; subst. rewrite Forall_forall in F. now apply F.
  - inversion S; subst. now apply IH.
Qed.

Lemma wf_frame {L : Type} (body : nat -> t -> L -> t * L * control) (r : nat) (self : t) (l : L) :
  frame body -> wf self -> wf (fst (fst (body r self l))).
Proof.
  intros F [S R]. destruct (F r self l) as (F1 & F2 & _). cbv zeta in F1, F2.
  split; rewrite F1; [assumption|]. now rewrite F2.
Qed.

Lemma wf_remove (r : nat) (self : t) (us : list nat) :
  wf self -> list_remove r (__unpaid_advances self) = Some us ->
  wf (set___unpaid_advances self us).
Proof.
  intros [S R] H. split; simpl.
  - eapply list_remove_sorted; eauto.
  - rewrite Forall_forall in *. intros y Hy. apply R. eapply list_remove_In; eauto.
Qed.

Lemma interest_keeps_step (payment_date : string) (self0 : t) (r : nat) (self : t) :
  interest_keeps self0 self -> is_open self r = true ->
  interest_keeps self0 (fst (fst (pay_interest_body payment_date r self tt))).
Proof.
  intros (W & R & T) Ho.
  pose proof (wf_frame _ r self tt (pay_interest_body_frame payment_date) W) as W'.
  destruct (is_open_inv self r Ho) as (a & Ha & Hc).
  destruct (pay_interest_body_at payment_date r self a Ha)
    as [E | (_ & a' & rest & paid & E & Es)].
  - rewrite E. exact (conj W (conj R T)).
  - rewrite Es in *. clear Es.
    destruct (pay_interest_conserve a _ _ a' rest paid E) as (_ & Hr & _).
    assert (Hne : forall r0, r0 <> r ->
              deref (set_interest_paid (set_balance (store self r a') rest)
                       (interest_paid self + paid)) r0 = deref self r0)
      by (intros r0 H0; apply (deref_store_ne self r r0 a' H0)).
    split; [exact W'|]. split.
    + intro r0. rewrite <- R. unfold remaining_at.
      destruct (Nat.eq_dec r0 r) as [->|H0]; [|now rewrite Hne].
      change (deref (set_interest_paid _ _) r) with (deref (store self r a') r).
      rewrite (deref_store_eq self r a' (deref_lt self r a Ha)), Ha. simpl. now rewrite Hr.
    + intros r0 Hin. destruct (T r0 Hin) as [H|H]; [now left | right].
      apply (closed_frame self); [|assumption].
      apply Hne. intro. subst. exact (closed_open_absurd self r H Ho).
Qed.

Lemma interest_keeps_remove (self0 : t) (r : nat) (self : t) (us : list nat) :
  interest_keeps self0 self -> closed self r ->
  list_remove r (__unpaid_advances self) = Some us ->
  interest_keeps self0 (set___unpaid_advances self us).
Proof.
  intros (W & R & T) Hc Hr. split; [eapply wf_remove; eauto|]. split; [exact R|].
  intros r0 Hin. destruct (T r0 Hin) as [H|H]; [|now right].
  destruct (Nat.eq_dec r0 r) as [->|Hne]; [now right | left].
  eapply list_remove_keep; eauto.
Qed.

Lemma __pay_interest_keeps (self : t) (payment_date : string) :
  wf self -> interest_keeps self (fst (__pay_interest self payment_date)).
Proof.
  intro W.
  apply (__pay_interest_rule (interest_keeps self) payment_date).
  - intros r s Hs _ Ho. now apply interest_keeps_step.
  - intros r s us Hs Hc Hr. eapply interest_keeps_remove; eauto.
  - split; [assumption|]. split; [reflexivity|]. intros r Hin. now left.
Qed.

Lemma __pay_capital_closed_kept (self : t) :
  closed_kept self (fst (__pay_capital self)).
Proof.
  apply (__pay_capital_rule (closed_kept self)).
  - intros r s Hs _ Ho. now apply closed_kept_step; [apply pay_capital_body_frame | |].
  - intros r s us Hs _ _. exact Hs.
  - intros r a Ha _. exact Ha.
Qed.

(** An advance of the working list that is still open after the capital
    sweep kept every younger advance from being paid. *)
Lemma __pay_capital_order (self self' : t) (res : result unit) (r r' : nat) :
  wf self ->
  __pay_capital self = (self', res) ->
  In r (__unpaid_advances self) -> is_open self' r = true -> (r < r')%nat ->
  deref self' r' = deref self r'.
Proof.
  intros [S R] H Hin Ho Hlt.
  unfold __pay_capital, unpaid_advances in H. cbv zeta in H. rewrite Nat.sub_0_r in H.
  destruct (unpaid_advances_loop _ _ _ _ self tt) as [[s []] x] eqn:E.
  injection H as <- _.
  apply (pay_capital_loop_order (__unpaid_advances self) [] self) in E as [A B];
    [| reflexivity | now apply sorted_NoDup | assumption | right; constructor].
  destruct (in_dec Nat.eq_dec r' (__unpaid_advances self)) as [Hin'|Hn]; [|now apply A].
  destruct (in_split _ _ Hin') as (pre & post & Hu).
  apply (B pre r' post Hu). exists r. split; [|assumption]. simpl.
  rewrite Hu in Hin, S.
  apply in_app_or in Hin as [Hin | [<- | Hin]]; [assumption | lia |].
  pose proof (sorted_after pre post r' r S Hin). lia.
Qed.

End OrderFacts.

(** ** The accounts of a payment *)

Module PaymentMore.
Import Calendar CalendarFacts AdvanceFacts AdvanceMore SumFacts Balance GeneratorFacts BodyFacts
  SweepFacts InvariantFacts ReachFacts CapitalFacts SuccessFacts PaymentRule LedgerMore.





(** *** With Fraction rates the cash buffer is never negative *)





(** *** A payment that covers everything *)







End PaymentMore.

(** ** More on the queries *)

Module QueryMore.
Import Calendar CalendarFacts AdvanceFacts AdvanceMore SumFacts Balance GeneratorFacts BodyFacts
  SweepFacts InvariantFacts ReachFacts CapitalFacts QueryFacts TrackedFacts LedgerMore.

Lemma sum_map_le {A : Type} (f g : A -> Q) (l : list A) :
  (forall x, In x l -> f x <= g x) -> sum (map f l) <= sum (map g l).
Proof.
  induction l as [|x l IH]; intro H; [apply Qle_refl|].
  simpl. rewrite !sum_cons. apply Qplus_le_compat.
  - apply H. now left.
  - apply IH. intros y Hy. apply H. now right.
Qed.

Lemma open_advances_remaining (self : t) :
  inv self ->
  sum (map Advance.remaining_amount (open_advances self)) == total_remaining self.
Proof.
  intro Hi. rewrite (open_advances_all self Hi). unfold total_remaining.
  apply sum_map_filter. intros a _ Hc. apply negb_false_iff in Hc.
  now apply Qeq_bool_iff in Hc.
Qed.

Lemma open_advances_none (self : t) :
  inv self ->
  Forall (fun a => Advance.remaining_amount a == 0) (advances self) ->
  open_advances self = [].
Proof.
  intros Hi Hall. rewrite (open_advances_all self Hi).
  induction Hall as [|a l Ha Hall IH]; [reflexivity|].
  simpl. unfold Advance.is_close at 1. apply Qeq_bool_iff in Ha. rewrite Ha. exact IH.
Qed.

Lemma open_advances_In (self : t) (a : Advance.t) :
  inv self -> In a (open_advances self) -> In a (advances self).
Proof.
  intros Hi H. rewrite (open_advances_all self Hi) in H. now apply filter_In in H.
Qed.

End QueryMore.

(** * Further properties, stated *)

Module Extras.
Import Calendar CalendarFacts AdvanceFacts AdvanceMore SumFacts Balance GeneratorFacts BodyFacts
  SweepFacts InvariantFacts ReachFacts CapitalFacts QueryFacts TrackedFacts PaymentFacts
  TraversalFacts SuccessFacts PaymentRule LedgerMore OrderFacts PaymentMore QueryMore.


(** X2.  With a non-negative amount on an advance that owes a non-negative
    amount, [Advance.pay_capital] never raises what remains, never leaves it
    or the returned rest negative, and gives back the whole amount when the
    advance is already paid off, which then stays paid off. *)
Theorem X2_pay_capital_never_reopens (a : Advance.t) (amount : Q) :
  0 <= Advance.remaining_amount a -> 0 <= amount ->
  Advance.remaining_amount (fst (Advance.pay_capital a amount)) <= Advance.remaining_amount a /\
  0 <= Advance.remaining_amount (fst (Advance.pay_capital a amount)) /\
  0 <= snd (Advance.pay_capital a amount) /\
  (Advance.is_close a = true ->
   Advance.is_close (fst (Advance.pay_capital a amount)) = true /\
   snd (Advance.pay_capital a amount) == amount).
Proof.
  intros Hr Ha.
  pose proof (pay_capital_le a amount Hr Ha) as H1.
  destruct (pay_capital_nonneg a amount Hr Ha) as [H2 H3].
  split; [exact H1|]. split; [exact H2|]. split; [exact H3|].
  intro Hc. unfold Advance.is_close in *. apply Qeq_bool_iff in Hc.
  assert (Hz : Advance.remaining_amount (fst (Advance.pay_capital a amount)) == 0).
  { apply Qle_antisym; [|exact H2]. now rewrite <- Hc. }
  split; [now apply Qeq_bool_iff|].
  pose proof (pay_capital_conserve a amount) as E. rewrite Hc, Hz in E.
  rewrite <- E at 2. ring.
Qed.

Lemma X2_witness :
  Advance.remaining_amount (fst (Advance.pay_capital Examples.advance_1000 1500))
    <= Advance.remaining_amount Examples.advance_1000 /\
  0 <= Advance.remaining_amount (fst (Advance.pay_capital Examples.advance_1000 1500)) /\
  0 <= snd (Advance.pay_capital Examples.advance_1000 1500) /\
  (Advance.is_close Examples.advance_1000 = true ->
   Advance.is_close (fst (Advance.pay_capital Examples.advance_1000 1500)) = true /\
   snd (Advance.pay_capital Examples.advance_1000 1500) == 1500).
Proof.
  apply (X2_pay_capital_never_reopens Examples.advance_1000 1500); discriminate.
Defined.





(** X5.  A payment of interest that covers the accrued interest takes
    exactly that interest, and no interest is payable at the payment date
    afterwards. *)
Theorem X5_pay_interest_full_clears
    (a : Advance.t) (amount : Q) (payment_date : string) (d : date) :
  fromisoformat payment_date = Some d ->
  Advance.interest_payable_at a d <= amount ->
  exists (a' : Advance.t) (rest v : Q),
    Advance.pay_interest a amount payment_date
      = (a', Ok (rest, Advance.interest_payable_at a d)) /\
    Advance.last_interest_payment_date a' = d /\
    Advance.interest_payable_balance a' payment_date = Ok v /\ v == 0.
Proof.
  intros Hd Hle. rewrite (pay_interest_full a amount payment_date d Hd Hle).
  do 3 eexists. split; [reflexivity|]. split; [reflexivity|].
  rewrite (interest_payable_balance_date _ _ _ Hd). split; [reflexivity|].
  unfold Advance.interest_payable_at. simpl Advance.last_interest_payment_date.
  rewrite days_between_same. ring.
Qed.

Lemma X5_witness :
  exists (a' : Advance.t) (rest v : Q),
    Advance.pay_interest Examples.advance_1000 10 "2024-01-05"
      = (a', Ok (rest, Advance.interest_payable_at Examples.advance_1000 738890%Z)) /\
    Advance.last_interest_payment_date a' = 738890%Z /\
    Advance.interest_payable_balance a' "2024-01-05" = Ok v /\ v == 0.
Proof.
  apply (X5_pay_interest_full_clears Examples.advance_1000 10 "2024-01-05"%string).
  - reflexivity.
  - discriminate.
Defined.

(** X6.  [Advance.interest_payable_balance], on an advance whose interest per
    day is not negative: nothing is payable up to the date of the last
    interest payment, and what is payable is never negative and never goes
    down as the date moves on. *)
Theorem X6_interest_payable_balance_monotone
    (a : Advance.t) (date1 date2 : string) (d1 d2 : date) :
  0 <= Advance.interest_by_day a ->
  fromisoformat date1 = Some d1 -> fromisoformat date2 = Some d2 ->
  (d1 <= d2)%Z ->
  exists i1 i2 : Q,
    Advance.interest_payable_balance a date1 = Ok i1 /\
    Advance.interest_payable_balance a date2 = Ok i2 /\
    0 <= i1 /\ i1 <= i2 /\
    ((d1 <= Advance.last_interest_payment_date a)%Z -> i1 == 0).
Proof.
  intros Hi H1 H2 Hle.
  exists (Advance.interest_payable_at a d1), (Advance.interest_payable_at a d2).
  split; [now apply interest_payable_balance_date|].
  split; [now apply interest_payable_balance_date|].
  split; [now apply interest_payable_at_nonneg|]. split.
  - unfold Advance.interest_payable_at. apply Qmult_le_compat_r; [|assumption].
    rewrite <- Zle_Qle. now apply days_between_mono.
  - intro Hb. rewrite (interest_payable_at_before a d1 Hb). ring.
Qed.

Lemma X6_witness :
  exists i1 i2 : Q,
    Advance.interest_payable_balance Examples.advance_1000 "2023-12-25" = Ok i1 /\
    Advance.interest_payable_balance Examples.advance_1000 "2024-01-05" = Ok i2 /\
    0 <= i1 /\ i1 <= i2 /\
    ((738879 <= Advance.last_interest_payment_date Examples.advance_1000)%Z -> i1 == 0).
Proof.
  apply (X6_interest_payable_balance_monotone Examples.advance_1000
           "2023-12-25"%string "2024-01-05"%string 738879%Z 738890%Z).
  - discriminate.
  - reflexivity.
  - reflexivity.
  - discriminate.
Defined.

(** X7.  [Balance.add_advance] with a date that is no date raises
    ValueError only after it has taken the advance out of the cash buffer:
    no advance is recorded, but the buffer is down by the amount, or empty
    when it did not hold more than the amount. *)
Theorem X7_add_advance_invalid_date
    (self : t) (advance_date : string) (amount : Q) (rate : option Q) :
  fromisoformat advance_date = None ->
  exists self' : t,
    add_advance self advance_date amount rate = (self', Err ValueError) /\
    advances self' = advances self /\
    __unpaid_advances self' = __unpaid_advances self /\
    payments self' = payments self /\
    interest_paid self' = interest_paid self /\
    (amount < balance self -> balance self' = balance self - amount) /\
    (~ amount < balance self -> balance self' = 0).
Proof.
  intro Hd. unfold add_advance, Advance.init. cbv zeta. rewrite Hd.
  destruct (Qlt_bool amount (balance self)) eqn:E.
  - apply Qlt_bool_iff in E. eexists. split; [reflexivity|]. simpl.
    do 4 (split; [reflexivity|]). split; [reflexivity | contradiction].
  - assert (E' : ~ amount < balance self)
      by (intro H; apply Qlt_bool_iff in H; congruence).
    eexists. split; [reflexivity|]. simpl.
    do 4 (split; [reflexivity|]). split; [contradiction | reflexivity].
Qed.

Lemma X7_witness :
  exists self' : t,
    add_advance (init (1 # 100) 200) "2024-13-01" 500 None = (self', Err ValueError) /\
    advances self' = advances (init (1 # 100) 200) /\
    __unpaid_advances self' = __unpaid_advances (init (1 # 100) 200) /\
    payments self' = payments (init (1 # 100) 200) /\
    interest_paid self' = interest_paid (init (1 # 100) 200) /\
    (500 < balance (init (1 # 100) 200) ->
     balance self' = balance (init (1 # 100) 200) - 500) /\
    (~ 500 < balance (init (1 # 100) 200) -> balance self' = 0).
Proof.
  apply (X7_add_advance_invalid_date (init (1 # 100) 200) "2024-13-01"%string 500 None).
  reflexivity.
Defined.




(** X10.  [Balance.add_payment] always appends exactly the payment it was
    given to the log, raised or not, and leaves the ledger's rate and the
    identity of the advances alone: the same number of advances, each with
    its creation date, initial amount and rate. *)
Theorem X10_add_payment_log_and_identity (self : t) (payment_date : string) (amount : Q) :
  payments (fst (add_payment self payment_date amount))
    = payments self ++ [Payment.make payment_date amount] /\
  daily_interest_rate (fst (add_payment self payment_date amount))
    = daily_interest_rate self /\
  same_advances self (fst (add_payment self payment_date amount)).
Proof.
  apply (add_payment_rule
           (fun s => payments s = payments self ++ [Payment.make payment_date amount] /\
                     daily_interest_rate s = daily_interest_rate self /\
                     same_advances self s) payment_date).
  - intros r s (H1 & H2 & H3) _ Ho.
    pose proof (same_advances_interest_step payment_date self r s H3 Ho) as H3'.
    destruct (is_open_inv s r Ho) as (a & Ha & _).
    destruct (pay_interest_body_at payment_date r s a Ha)
      as [E | (_ & a' & rest & paid & _ & E)]; rewrite E in *; auto.
  - intros r s (H1 & H2 & H3) _ Ho.
    pose proof (same_advances_capital_step self r s H3 Ho) as H3'.
    destruct (is_open_inv s r Ho) as (a & Ha & _).
    destruct (pay_capital_body_at r s a Ha) as [E | (_ & E)]; rewrite E in *; auto.
  - intros r s us H _ _. exact H.
  - split; [reflexivity|]. split; [reflexivity|]. split; [reflexivity|].
    intros r a Ha. exists a. auto.
Qed.

(** X11.  Paid off is for good: an advance that is paid off is in the ledger
    exactly as it was after any [add_payment], raised or not, and
    [add_advance] changes no advance at all. *)
Theorem X11_closed_advance_untouched :
  (forall (self : t) (payment_date : string) (amount : Q),
     closed_kept self (fst (add_payment self payment_date amount))) /\
  (forall (self : t) (advance_date : string) (amount : Q) (rate : option Q) (r : nat)
          (a : Advance.t),
     deref self r = Some a ->
     deref (fst (add_advance self advance_date amount rate)) r = Some a).
Proof.
  split.
  - intros self payment_date amount.
    apply (add_payment_rule (closed_kept self) payment_date).
    + intros r s Hs _ Ho.
      now apply closed_kept_step; [apply pay_interest_body_frame | |].
    + intros r s Hs _ Ho. now apply closed_kept_step; [apply pay_capital_body_frame | |].
    + intros r s us Hs _ _. exact Hs.
    + intros r a Ha _. exact Ha.
  - intros self advance_date amount rate r a Ha.
    unfold add_advance, Advance.init. cbv zeta.
    destruct (Qlt_bool amount (balance self));
      destruct (fromisoformat advance_date); simpl; try exact Ha;
      unfold deref in *; simpl; rewrite nth_error_app1; try assumption;
      apply nth_error_Some; congruence.
Qed.

Lemma X11_witness :
  deref (fst (add_advance Examples.ledger_prefunded "2024-01-02" 70 None)) O
  = Some (Advance.make 738886%Z 100 0 (1 # 100) 738886%Z).
Proof.
  apply (proj2 X11_closed_advance_untouched Examples.ledger_prefunded "2024-01-02"%string 70
           None O).
  reflexivity.
Defined.







(** X15.  Oldest first: when an advance of the working list is still open
    after [add_payment], raised or not, what remains of every younger advance
    is what remained before. *)
Theorem X15_add_payment_oldest_first
    (self : t) (payment_date : string) (amount : Q) (r r' : nat) :
  wf self ->
  In r (__unpaid_advances self) ->
  is_open (fst (add_payment self payment_date amount)) r = true ->
  (r < r')%nat ->
  remaining_at (fst (add_payment self payment_date amount)) r' = remaining_at self r'.
Proof.
  intros W Hin Ho Hlt. rewrite add_payment_unfold in *. cbv zeta in *.
  set (s0 := set_balance (set_payments self _) _) in *.
  assert (W0 : wf s0) by exact W.
  destruct (__pay_interest_keeps s0 payment_date W0) as (W1 & R1 & T1).
  pose proof (__pay_capital_closed_kept (fst (__pay_interest s0 payment_date))) as Hck.
  pose proof (fun res => __pay_capital_order (fst (__pay_interest s0 payment_date))
                (fst (__pay_capital (fst (__pay_interest s0 payment_date)))) res) as Hord.
  destruct (__pay_interest s0 payment_date) as [s1 [[]|e]]; simpl in *.
  - transitivity (remaining_at s1 r'); [|exact (R1 r')].
    unfold remaining_at. f_equal.
    destruct (__pay_capital s1) as [s2 res] eqn:E. simpl in *.
    destruct (T1 r Hin) as [Hin1 | Hc].
    + exact (Hord res r r' W1 eq_refl Hin1 Ho Hlt).
    + exfalso. destruct Hc as (a & Ha & Hca).
      apply (closed_open_absurd s2 r); [|exact Ho].
      exists a. split; [now apply Hck | exact Hca].
  - exact (R1 r').
Qed.

Lemma X15_witness :
  remaining_at (fst (add_payment (set_balance Examples.ledger_three 0) "2024-01-01" 120)) 2%nat
  = remaining_at (set_balance Examples.ledger_three 0) 2%nat.
Proof.
  apply (X15_add_payment_oldest_first (set_balance Examples.ledger_three 0)
           "2024-01-01"%string 120 1%nat 2%nat).
  - split.
    + repeat constructor.
    + repeat constructor.
  - right. left. reflexivity.
  - vm_compute. reflexivity.
  - repeat constructor.
Defined.



(** X17.  [Balance.advances_balance], on a ledger reachable with
    non-negative amounts, does not raise, changes nothing, and returns the
    capital owed on all the advances, which is not negative. *)
Theorem X17_advances_balance_total (self : t) :
  reachable self ->
  exists v : Q,
    advances_balance self = (self, Ok v) /\
    v == total_remaining self /\
    0 <= v.
Proof.
  intro R. apply reachable_inv in R.
  exists (sum (map Advance.remaining_amount (open_advances self))).
  split; [apply advances_balance_spec, R|].
  pose proof (open_advances_remaining self R) as E. split; [exact E|].
  rewrite E. unfold total_remaining. apply sum_nonneg.
  destruct R as (_ & Nr & _). unfold nonneg in Nr. now rewrite Forall_map.
Qed.

Lemma X17_witness :
  exists v : Q,
    advances_balance (fst (add_payment Examples.ledger_one "2024-01-11" 50))
      = (fst (add_payment Examples.ledger_one "2024-01-11" 50), Ok v) /\
    v == total_remaining (fst (add_payment Examples.ledger_one "2024-01-11" 50)) /\
    0 <= v.
Proof.
  apply (X17_advances_balance_total (fst (add_payment Examples.ledger_one "2024-01-11" 50))).
  apply reachable_add_payment; [|discriminate].
  apply reachable_add_advance; [|discriminate]. apply reachable_init. discriminate.
Defined.

(** X18.  Cash left over means nothing is owed: with non-negative amounts
    only, when a payment that did not raise leaves cash in the buffer,
    [advances_balance] returns 0 and [interest_payable_balance] returns 0 at
    every date before the last one. *)
Theorem X18_overpaid_nothing_owed
    (self : t) (payment_date : string) (amount : Q) (self' : t) :
  reachable self -> 0 <= amount ->
  add_payment self payment_date amount = (self', Ok tt) ->
  ~ balance self' == 0 ->
  advances_balance self' = (self', Ok 0) /\
  (forall (to_date : string) (d : date),
     fromisoformat to_date = Some d -> (d < MAXORD)%Z ->
     interest_payable_balance self' to_date = (self', Ok 0)).
Proof.
  intros R Ha E Hnz.
  pose proof (reachable_add_payment self payment_date amount R Ha) as R'.
  rewrite E in R'. simpl in R'. apply reachable_inv in R'. apply reachable_inv in R.
  destruct (add_payment_settled self payment_date amount self' R E) as [Hz|Hall];
    [contradiction|].
  pose proof (open_advances_none self' R' Hall) as Hnone.
  destruct R' as (W & _). split.
  - rewrite (advances_balance_spec self' W), Hnone. reflexivity.
  - intros to_date d Hd Hmax.
    destruct (interest_payable_balance_next_day self' to_date d W Hd Hmax) as [_ H].
    rewrite H, Hnone. reflexivity.
Qed.

Lemma X18_witness :
  advances_balance (fst (add_payment Examples.ledger_one "2024-01-11" 200))
    = (fst (add_payment Examples.ledger_one "2024-01-11" 200), Ok 0) /\
  (forall (to_date : string) (d : date),
     fromisoformat to_date = Some d -> (d < MAXORD)%Z ->
     interest_payable_balance (fst (add_payment Examples.ledger_one "2024-01-11" 200)) to_date
       = (fst (add_payment Examples.ledger_one "2024-01-11" 200), Ok 0)).
Proof.
  apply (X18_overpaid_nothing_owed Examples.ledger_one "2024-01-11"%string 200).
  - apply reachable_add_advance; [|discriminate]. apply reachable_init. discriminate.
  - discriminate.
  - vm_compute. reflexivity.
  - discriminate.
Defined.



(** X20.  [Balance.interest_payable_balance], on a ledger reachable with
    non-negative amounts and with no negative rate: the interest payable is
    never negative and never goes down as the date moves on. *)
Theorem X20_interest_payable_balance_monotone
    (self : t) (date1 date2 : string) (d1 d2 : date) :
  reachable self -> rates_nonneg self ->
  fromisoformat date1 = Some d1 -> fromisoformat date2 = Some d2 ->
  (d1 <= d2)%Z -> (d2 < MAXORD)%Z ->
  exists v1 v2 : Q,
    interest_payable_balance self date1 = (self, Ok v1) /\
    interest_payable_balance self date2 = (self, Ok v2) /\
    0 <= v1 /\ v1 <= v2.
Proof.
  intros R Hrates H1 H2 Hle Hmax. apply reachable_inv in R.
  pose proof R as (W & Nr & _). unfold nonneg in Nr.
  destruct (interest_payable_balance_next_day self date1 d1 W H1 ltac:(lia)) as [_ E1].
  destruct (interest_payable_balance_next_day self date2 d2 W H2 Hmax) as [_ E2].
  do 2 eexists. split; [exact E1|]. split; [exact E2|].
  assert (Hibd : forall a, In a (open_advances self) -> 0 <= Advance.interest_by_day a).
  { intros a Hin. apply (open_advances_In self a R) in Hin.
    unfold rates_nonneg in Hrates. rewrite Forall_forall in Nr, Hrates.
    apply interest_by_day_nonneg; auto. }
  split.
  - apply sum_nonneg. rewrite Forall_map. apply Forall_forall. intros a Hin.
    apply interest_payable_at_nonneg. now apply Hibd.
  - apply sum_map_le. intros a Hin. unfold Advance.interest_payable_at.
    apply Qmult_le_compat_r; [|now apply Hibd].
    rewrite <- Zle_Qle. apply days_between_mono. lia.
Qed.

Lemma X20_witness :
  exists v1 v2 : Q,
    interest_payable_balance Examples.ledger_one "2024-01-10" = (Examples.ledger_one, Ok v1) /\
    interest_payable_balance Examples.ledger_one "2024-02-10" = (Examples.ledger_one, Ok v2) /\
    0 <= v1 /\ v1 <= v2.
Proof.
  apply (X20_interest_payable_balance_monotone Examples.ledger_one
           "2024-01-10"%string "2024-02-10"%string 738895%Z 738926%Z).
  - apply reachable_add_advance; [|discriminate]. apply reachable_init. discriminate.
  - repeat constructor. discriminate.
  - reflexivity.
  - reflexivity.
  - discriminate.
  - reflexivity.
Defined.

(** X21.  A back-dated payment of interest: with a payment date on or before
    the date of the last interest payment and a non-negative amount,
    [Advance.pay_interest] pays nothing and returns the whole amount, yet it
    sets the date of the last interest payment back to the payment date, so
    that from then on the days in between accrue interest once more. *)
Theorem X21_pay_interest_back_dated
    (a : Advance.t) (amount : Q) (payment_date : string) (d : date) :
  fromisoformat payment_date = Some d ->
  (d <= Advance.last_interest_payment_date a)%Z ->
  0 <= amount ->
  exists rest paid : Q,
    Advance.pay_interest a amount payment_date
      = (Advance.set_last_interest_payment_date a d, Ok (rest, paid)) /\
    rest == amount /\ paid == 0 /\
    forall d2 : date,
      (Advance.last_interest_payment_date a <= d2)%Z ->
      Advance.interest_payable_at (Advance.set_last_interest_payment_date a d) d2
      == Advance.interest_payable_at a d2
         + inject_Z (Advance.last_interest_payment_date a - d) * Advance.interest_by_day a.
Proof.
  intros Hd Hle Ha.
  pose proof (interest_payable_at_before a d Hle) as Hz.
  assert (Hfull : Advance.interest_payable_at a d <= amount).
  { rewrite Hz. now rewrite Qmult_0_l. }
  rewrite (pay_interest_full a amount payment_date d Hd Hfull).
  do 2 eexists. split; [reflexivity|]. rewrite Hz.
  split; [ring|]. split; [ring|].
  intros d2 H2. unfold Advance.interest_payable_at.
  cbn [Advance.last_interest_payment_date Advance.set_last_interest_payment_date].
  change (Advance.interest_by_day (Advance.set_last_interest_payment_date a d))
    with (Advance.interest_by_day a).
  rewrite <- Qmult_plus_distr_l, <- inject_Z_plus.
  replace (Advance.days_between d d2)
    with (Advance.days_between (Advance.last_interest_payment_date a) d2
          + (Advance.last_interest_payment_date a - d))%Z; [reflexivity|].
  unfold Advance.days_between, date_sub_days.
  destruct (d2 <=? Advance.last_interest_payment_date a)%Z eqn:E1;
    destruct (d2 <=? d)%Z eqn:E2; bool_to_Z; lia.
Qed.

Lemma X21_witness :
  exists rest paid : Q,
    Advance.pay_interest Examples.advance_1000 5 "2023-12-25"
      = (Advance.set_last_interest_payment_date Examples.advance_1000 738879%Z,
         Ok (rest, paid)) /\
    rest == 5 /\ paid == 0 /\
    forall d2 : date,
      (Advance.last_interest_payment_date Examples.advance_1000 <= d2)%Z ->
      Advance.interest_payable_at
        (Advance.set_last_interest_payment_date Examples.advance_1000 738879%Z) d2
      == Advance.interest_payable_at Examples.advance_1000 d2
         + inject_Z (Advance.last_interest_payment_date Examples.advance_1000 - 738879)
           * Advance.interest_by_day Examples.advance_1000.
Proof.
  apply (X21_pay_interest_back_dated Examples.advance_1000 5 "2023-12-25"%string 738879%Z).
  - reflexivity.
  - discriminate.
  - discriminate.
Defined.

(** X22.  With ints only the division of [pay_interest] is a float
    division, and a payment can take more interest than it brings: on a
    ledger with one advance of 10^16 at the rate 1 a day, created 2024-01-01,
    a payment of 3 * 10^16 - 1 on 2024-01-06, less than the interest of the
    five days accrued, pays three whole days of interest, 3 * 10^16; the
    interest sweep leaves -1 in the cash buffer, and the capital sweep, handed
    that -1, empties the buffer by raising what remains of the advance by
    1. *)
Theorem X22_int_division_overdraws :
  exists (self s1 self' : t) (a a1 a' : Advance.t),
    add_advance (init 1 0) "2024-01-01" 10000000000000000 None = (self, Ok tt) /\
    deref self O = Some a /\
    is_int (Advance.daily_interest_rate a) = true /\
    Advance.remaining_amount a == 10000000000000000 /\
    29999999999999999 < Advance.interest_payable_at a 738891%Z /\
    __pay_interest (set_balance self 29999999999999999) "2024-01-06" = (s1, Ok tt) /\
    deref s1 O = Some a1 /\
    Advance.last_interest_payment_date a1 = (Advance.last_interest_payment_date a + 3)%Z /\
    interest_paid s1 == 30000000000000000 /\
    balance s1 == - (1) /\
    add_payment self "2024-01-06" 29999999999999999 = (self', Ok tt) /\
    deref self' O = Some a' /\
    Advance.remaining_amount a' == 10000000000000001 /\
    interest_paid self' == 30000000000000000 /\
    balance self' == 0.
Proof.
  do 6 eexists. split; [reflexivity|]. split; [reflexivity|]. split; [reflexivity|].
  split; [reflexivity|]. split; [reflexivity|]. split; [vm_compute; reflexivity|].
  split; [reflexivity|]. split; [reflexivity|]. split; [reflexivity|].
  split; [reflexivity|]. split; [vm_compute; reflexivity|]. split; [reflexivity|].
  split; [reflexivity|]. split; reflexivity.
Qed.

End Extras.
